(** * hookmanager: the four hook registries, embedded and verified

    The embedding follows the TypeScript sources function by function:

    - [errors.ts]        : [HookError], [HookNotFoundError], [DuplicateHookError]
    - [core.ts]          : [Basic]     ([createHookManager])
    - [priorityHooks.ts] : [Priority]  ([createPriorityHookManager])
    - [parallelHooks.ts] : [Parallel]  ([createParallelHookManager])
    - [scopedHooks.ts]   : [Scoped]    ([createScopedHookManager])

    A registry closes over one mutable [Map]; here every operation takes the
    map and returns the new one (explicit state passing).  Callbacks are
    opaque function objects: they are compared by reference and their body
    is only ever called.  A callback is modelled by its reference together
    with an oracle [call] telling what [hook(data)] does; callbacks are
    assumed not to re-enter the registry that is running them. *)

From Stdlib Require Import List String Ascii ZArith Lia Bool Arith PeanoNat.
From Stdlib Require Import Sorted Permutation.
Import ListNotations.

Local Open Scope string_scope.
Local Open Scope list_scope.
Local Open Scope nat_scope.

(* ================================================================== *)
(** * JavaScript [Map<string, V>]

    An insertion-ordered association list with unique keys: [set] on a
    present key overwrites the value in place (the key keeps its position),
    [set] on a new key appends, [delete] removes the key and reports whether
    it was there, [keys] enumerates in insertion order. *)

Module JSMap.
Section WithValues.
Context {V : Type}.

Definition t := list (string * V).

Definition empty : t := [].

Fixpoint get (k : string) (m : t) : option V :=
  match m with
  | [] => None
  | (k', v) :: m' => if String.eqb k' k then Some v else get k m'
  end.

Definition has (k : string) (m : t) : bool :=
  match get k m with Some _ => true | None => false end.

Fixpoint set (k : string) (v : V) (m : t) : t :=
  match m with
  | [] => [(k, v)]
  | (k', v') :: m' =>
      if String.eqb k' k then (k', v) :: m' else (k', v') :: set k v m'
  end.

Fixpoint delete (k : string) (m : t) : t :=
  match m with
  | [] => []
  | (k', v') :: m' =>
      if String.eqb k' k then m' else (k', v') :: delete k m'
  end.

Definition keys (m : t) : list string := map fst m.

(** Keys are unique: every map built from [empty] by [set] and [delete]
    satisfies this. *)
Definition wf (m : t) : Prop := NoDup (keys m).
End WithValues.
Arguments t : clear implicits.
End JSMap.

(* ================================================================== *)
(** * errors.ts *)

(** The classes of the error hierarchy; [Error] is the built-in root. *)
Inductive ErrorClass : Type :=
| Error
| HookError
| HookNotFoundError
| DuplicateHookError.

Definition ErrorClass_eqb (a b : ErrorClass) : bool :=
  match a, b with
  | Error, Error
  | HookError, HookError
  | HookNotFoundError, HookNotFoundError
  | DuplicateHookError, DuplicateHookError => true
  | _, _ => false
  end.

(** [class C extends P]. *)
Definition superclass (c : ErrorClass) : option ErrorClass :=
  match c with
  | Error => None
  | HookError => Some Error
  | HookNotFoundError => Some HookError
  | DuplicateHookError => Some HookError
  end.

(** Walk of the prototype chain, as [instanceof] does. *)
Fixpoint chain_has (fuel : nat) (c base : ErrorClass) : bool :=
  ErrorClass_eqb c base ||
  match fuel with
  | O => false
  | S fuel' =>
      match superclass c with
      | Some p => chain_has fuel' p base
      | None => false
      end
  end.

Definition subclass_of (c base : ErrorClass) : bool := chain_has 3 c base.

(** A proper specialization: a subclass that is not the class itself. *)
Definition proper_subclass_of (c base : ErrorClass) : bool :=
  subclass_of c base && negb (ErrorClass_eqb c base).

(** An error object: the class it was constructed with, its [name]
    property and its [message]. *)
Record js_error : Type := mk_error {
  err_class : ErrorClass;
  err_name : string;
  err_message : string
}.

Definition instanceof (e : js_error) (c : ErrorClass) : bool :=
  subclass_of (err_class e) c.

(** The double-quote character of the template literals. *)
Definition dq : string := String "034"%char EmptyString.

Definition new_HookError (message : string) : js_error :=
  mk_error HookError "HookError" message.

Definition new_HookNotFoundError (hookName : string) : js_error :=
  mk_error HookNotFoundError "HookNotFoundError"
    ("Hook " ++ dq ++ hookName ++ dq ++ " is not registered")%string.

Definition new_DuplicateHookError (hookName : string) : js_error :=
  mk_error DuplicateHookError "DuplicateHookError"
    ("Hook " ++ dq ++ hookName ++ dq ++ " is already registered")%string.

(** A synchronous operation either returns or throws. *)
Inductive completion (A : Type) : Type :=
| Return (a : A)
| Throw (e : js_error).
Arguments Return {A} a.
Arguments Throw {A} e.

(* ================================================================== *)
(** * types.ts: callbacks and what calling them does *)

(** A callback is a function object; the registries only compare it by
    reference ([!==]) and call it. *)
Definition HookFunction : Type := nat.

(** What a callback throws or rejects with: a value that is
    [instanceof Error] (only its [message] is read), or any other value. *)
Inductive thrown : Type :=
| ErrorInstance (message : string)
| NonError (value : string).

Inductive outcome : Type :=
| Fulfil
| Reject (reason : thrown).

(** What [hook(data)] does.  [Throws]: the call itself throws.
    [Settles d o]: the call returns, and the returned value, once passed to
    [Promise.resolve], settles [d] ticks later ([d = 0] for a plain value).
    [Hangs]: the call returns a promise that never settles. *)
Inductive behaviour : Type :=
| Throws (e : thrown)
| Settles (d : nat) (o : outcome)
| Hangs.

(** Observable events of a run, stamped with logical time. *)
Inductive event : Type :=
| Invoked (t : nat) (f : HookFunction)
| Settled (t : nat) (f : HookFunction) (o : outcome).

(** Where control is after a statement of the [try] body. *)
Inductive flow : Type :=
| Continue (t : nat)
| Raise (t : nat) (e : thrown)
| Stuck.

(** The promise returned by [on], as the caller observes it. *)
Inductive promise_result : Type :=
| Resolved (t : nat)
| Rejected (t : nat) (e : js_error)
| Pending.

Record run : Type := mk_run {
  result : promise_result;
  events : list event
}.

(** The callbacks that were invoked, in order of invocation. *)
Fixpoint invoked (evs : list event) : list HookFunction :=
  match evs with
  | [] => []
  | Invoked _ f :: evs' => f :: invoked evs'
  | Settled _ _ _ :: evs' => invoked evs'
  end.

(** A promise created by [Promise.resolve(hook(data))] at some time. *)
Inductive promise : Type :=
| SettlesAt (t : nat) (o : outcome)
| NeverSettles.

Section Execution.
Context {Data : Type}.
Variable call : HookFunction -> Data -> behaviour.

(** [await Promise.resolve(hook(data))] started at time [t]. *)
Definition await_call (t : nat) (hook : HookFunction) (data : Data)
  : list event * flow :=
  match call hook data with
  | Throws e => ([Invoked t hook], Raise t e)
  | Settles d Fulfil =>
      ([Invoked t hook; Settled (t + d) hook Fulfil], Continue (t + d))
  | Settles d (Reject e) =>
      ([Invoked t hook; Settled (t + d) hook (Reject e)], Raise (t + d) e)
  | Hangs => ([Invoked t hook], Stuck)
  end.

(** [for (const hook of hooksList) { await Promise.resolve(hook(data)) }] *)
Fixpoint for_await (t : nat) (hooksList : list HookFunction) (data : Data)
  : list event * flow :=
  match hooksList with
  | [] => ([], Continue t)
  | hook :: rest =>
      match await_call t hook data with
      | (evs, Continue t') =>
          let (evs', fl) := for_await t' rest data in (evs ++ evs', fl)
      | (evs, fl) => (evs, fl)
      end
  end.

(** [hooksList.map((hook) => Promise.resolve(hook(data)))] at time [t]:
    the callbacks are called one after the other without awaiting; a call
    that throws makes [map] throw, and the callbacks after it are not
    called.  Callbacks already started keep running: their settlement is
    in the event list whatever happens next. *)
Fixpoint map_start (t : nat) (hooksList : list HookFunction) (data : Data)
  : list event * list event * (list promise + thrown) :=
  match hooksList with
  | [] => ([], [], inl [])
  | hook :: rest =>
      match call hook data with
      | Throws e => ([Invoked t hook], [], inr e)
      | Settles d o =>
          let '(inv, stl, r) := map_start t rest data in
          (Invoked t hook :: inv, Settled (t + d) hook o :: stl,
           match r with
           | inl ps => inl (SettlesAt (t + d) o :: ps)
           | inr e => inr e
           end)
      | Hangs =>
          let '(inv, stl, r) := map_start t rest data in
          (Invoked t hook :: inv, stl,
           match r with
           | inl ps => inl (NeverSettles :: ps)
           | inr e => inr e
           end)
      end
  end.

(** The rejection [Promise.all] reports: the earliest one.  Among
    rejections of the same tick the runtime reports the one whose reaction
    runs first; the model takes the first in the array there, and no
    statement below depends on which of them it is. *)
Fixpoint first_rejection (ps : list promise) : option (nat * thrown) :=
  match ps with
  | [] => None
  | p :: ps' =>
      match p with
      | SettlesAt t (Reject e) =>
          match first_rejection ps' with
          | Some (t', e') => if t' <? t then Some (t', e') else Some (t, e)
          | None => Some (t, e)
          end
      | _ => first_rejection ps'
      end
  end.

(** When every promise is fulfilled, the time the last one is; [None]
    when one of them is rejected or never settles. *)
Fixpoint all_fulfilled (t : nat) (ps : list promise) : option nat :=
  match ps with
  | [] => Some t
  | SettlesAt t' Fulfil :: ps' => all_fulfilled (Nat.max t t') ps'
  | _ :: _ => None
  end.

(** [await Promise.all(ps)] at time [t]: rejects as soon as one promise
    rejects, resolves once all are fulfilled, and stays pending
    otherwise. *)
Definition await_all (t : nat) (ps : list promise) : flow :=
  match first_rejection ps with
  | Some (t', e) => Raise t' e
  | None =>
      match all_fulfilled t ps with
      | Some t' => Continue t'
      | None => Stuck
      end
  end.

(** The [catch] block shared by the three [on] implementations, applied
    to the outcome of the [try] body. *)
Definition catch_rethrow (name : string) (fl : flow) : promise_result :=
  match fl with
  | Continue t => Resolved t
  | Raise t (ErrorInstance message) =>
      Rejected t
        (new_HookError
           ("Error in hook " ++ dq ++ name ++ dq ++ ": " ++ message)%string)
  | Raise t (NonError _) =>
      Rejected t
        (new_HookError ("Unknown error in hook " ++ dq ++ name ++ dq)%string)
  | Stuck => Pending
  end.
End Execution.

(* ================================================================== *)
(** * core.ts: the basic registry, one callback per name *)

Module Basic.

Definition HookMap : Type := JSMap.t HookFunction.

Definition createHookManager : HookMap := JSMap.empty.

(** The call returns or throws; either way the map is what it is after the
    call. *)
Definition register (name : string) (fn : HookFunction) (hooks : HookMap)
  : completion unit * HookMap :=
  if JSMap.has name hooks then (Throw (new_DuplicateHookError name), hooks)
  else (Return tt, JSMap.set name fn hooks).

(** [Map.prototype.delete] returns whether the key was present. *)
Definition unregister (name : string) (hooks : HookMap) : bool * HookMap :=
  (JSMap.has name hooks, JSMap.delete name hooks).

Definition has (name : string) (hooks : HookMap) : bool :=
  JSMap.has name hooks.

Section On.
Context {Data : Type}.
Variable call : HookFunction -> Data -> behaviour.

Definition on (name : string) (data : Data) (hooks : HookMap) : run :=
  match JSMap.get name hooks with
  | None => mk_run (Rejected 0 (new_HookNotFoundError name)) []
  | Some hook =>
      let (evs, fl) := await_call call 0 hook data in
      mk_run (catch_rethrow name fl) evs
  end.
End On.

Definition list (hooks : HookMap) : Datatypes.list string := JSMap.keys hooks.

End Basic.

(* ================================================================== *)
(** * [Array.prototype.sort]

    The sort is stable (ECMAScript 2019).  For a comparator that is a total
    preorder the result of a stable sort is unique, whatever the algorithm
    (see [stable_sort_unique] below); it is written here as the stable
    insertion sort: each element goes after the elements that do not
    compare greater than it. *)

Section ArraySort.
Context {A : Type}.
Variable compareFn : A -> A -> Z.

Fixpoint sort_insert (x : A) (l : list A) : list A :=
  match l with
  | [] => [x]
  | y :: l' =>
      if (compareFn y x <=? 0)%Z then y :: sort_insert x l'
      else x :: y :: l'
  end.

Definition Array_sort (l : list A) : list A :=
  fold_left (fun sorted x => sort_insert x sorted) l [].
End ArraySort.

(* ================================================================== *)
(** * priorityHooks.ts: several callbacks per name, run by priority *)

Module Priority.

(** [{ priority: number; fn: HookFunction }].  Priorities are integers;
    on integers [b.priority - a.priority] is exact and its sign is a total
    preorder. *)
Record entry : Type := mk_entry {
  priority : Z;
  fn : HookFunction
}.

Definition Hooks : Type := JSMap.t (list entry).

Definition createPriorityHookManager : Hooks := JSMap.empty.

(** [hooks.get(name)!]: the array stored under [name]. *)
Definition get_list (name : string) (hooks : Hooks) : list entry :=
  match JSMap.get name hooks with
  | Some hooksList => hooksList
  | None => []
  end.

(** [(a, b) => b.priority - a.priority] *)
Definition by_priority (a b : entry) : Z := (priority b - priority a)%Z.

(** [push] and [sort] mutate the array held by the map: the map then holds
    the sorted array under the same key, at the same position. *)
Definition register (name : string) (fn : HookFunction)
    (priority : option Z) (hooks : Hooks) : Hooks :=
  let priority := match priority with Some p => p | None => 10%Z end in
  let hooks1 :=
    if negb (JSMap.has name hooks) then JSMap.set name [] hooks else hooks in
  let hooksList := get_list name hooks1 in
  let pushed := hooksList ++ [mk_entry priority fn] in
  JSMap.set name (Array_sort by_priority pushed) hooks1.

Definition unregister (name : string) (fn_opt : option HookFunction)
    (hooks : Hooks) : bool * Hooks :=
  if negb (JSMap.has name hooks) then (false, hooks)
  else
    match fn_opt with
    | Some fn0 =>
        let hooksList := get_list name hooks in
        let initialLength := List.length hooksList in
        let newHooks :=
          filter (fun hook => negb (Nat.eqb (fn hook) fn0)) hooksList in
        let hooks1 := JSMap.set name newHooks hooks in
        let hooks2 :=
          if Nat.eqb (List.length newHooks) 0 then JSMap.delete name hooks1
          else hooks1 in
        (negb (Nat.eqb initialLength (List.length newHooks)), hooks2)
    | None => (JSMap.has name hooks, JSMap.delete name hooks)
    end.

Definition has (name : string) (hooks : Hooks) : bool :=
  JSMap.has name hooks && (0 <? List.length (get_list name hooks)).

Section On.
Context {Data : Type}.
Variable call : HookFunction -> Data -> behaviour.

Definition on (name : string) (data : Data) (hooks : Hooks) : run :=
  if negb (JSMap.has name hooks) || Nat.eqb (List.length (get_list name hooks)) 0
  then mk_run (Rejected 0 (new_HookNotFoundError name)) []
  else
    let hooksList := get_list name hooks in
    let (evs, fl) := for_await call 0 (map fn hooksList) data in
    mk_run (catch_rethrow name fl) evs.
End On.

Definition list (hooks : Hooks) : Datatypes.list string := JSMap.keys hooks.

End Priority.

(* ================================================================== *)
(** * parallelHooks.ts: several callbacks per name, run in sequence or
      all at once *)

Module Parallel.

Definition Hooks : Type := JSMap.t (list HookFunction).

Definition createParallelHookManager : Hooks := JSMap.empty.

Definition get_list (name : string) (hooks : Hooks) : list HookFunction :=
  match JSMap.get name hooks with
  | Some hooksList => hooksList
  | None => []
  end.

Definition register (name : string) (fn : HookFunction) (hooks : Hooks)
  : Hooks :=
  let hooks1 :=
    if negb (JSMap.has name hooks) then JSMap.set name [] hooks else hooks in
  JSMap.set name (get_list name hooks1 ++ [fn]) hooks1.

Definition unregister (name : string) (fn : option HookFunction)
    (hooks : Hooks) : bool * Hooks :=
  if negb (JSMap.has name hooks) then (false, hooks)
  else
    match fn with
    | Some fn0 =>
        let hooksList := get_list name hooks in
        let initialLength := List.length hooksList in
        let newHooks :=
          filter (fun hook => negb (Nat.eqb hook fn0)) hooksList in
        let hooks1 := JSMap.set name newHooks hooks in
        let hooks2 :=
          if Nat.eqb (List.length newHooks) 0 then JSMap.delete name hooks1
          else hooks1 in
        (negb (Nat.eqb initialLength (List.length newHooks)), hooks2)
    | None => (JSMap.has name hooks, JSMap.delete name hooks)
    end.

Definition has (name : string) (hooks : Hooks) : bool :=
  JSMap.has name hooks && (0 <? List.length (get_list name hooks)).

Section On.
Context {Data : Type}.
Variable call : HookFunction -> Data -> behaviour.

(** The [try] body when [parallel] is true. *)
Definition run_parallel (hooksList : list HookFunction) (data : Data)
  : list event * flow :=
  match map_start call 0 hooksList data with
  | (inv, stl, inl ps) => (inv ++ stl, await_all 0 ps)
  | (inv, stl, inr e) => (inv ++ stl, Raise 0 e)
  end.

Definition on (name : string) (data : Data) (parallel : bool)
    (hooks : Hooks) : run :=
  if negb (JSMap.has name hooks) || Nat.eqb (List.length (get_list name hooks)) 0
  then mk_run (Rejected 0 (new_HookNotFoundError name)) []
  else
    let hooksList := get_list name hooks in
    let (evs, fl) :=
      if parallel then run_parallel hooksList data
      else for_await call 0 hooksList data in
    mk_run (catch_rethrow name fl) evs.
End On.

Definition list (hooks : Hooks) : Datatypes.list string := JSMap.keys hooks.

End Parallel.

(* ================================================================== *)
(** * scopedHooks.ts: a basic registry behind a name prefix *)

(** [name.substring(n)]: the string without its first [n] characters. *)
Fixpoint substring_from (n : nat) (s : string) : string :=
  match n, s with
  | O, _ => s
  | S n', String _ s' => substring_from n' s'
  | S _, EmptyString => EmptyString
  end.

(** [name.startsWith(p)] *)
Definition startsWith (p s : string) : bool := String.prefix p s.

Module Scoped.

(** The closure: the fixed [prefix] and the inner [manager]. *)
Record ScopedHooks : Type := mk_scoped {
  prefix : string;
  manager : Basic.HookMap
}.

Definition createScopedHookManager (prefix : string) : ScopedHooks :=
  mk_scoped prefix Basic.createHookManager.

(** The template literal [`${prefix}:${name}`]. *)
Definition scoped_name (prefix name : string) : string :=
  (prefix ++ ":" ++ name)%string.

Definition register (name : string) (fn : HookFunction) (s : ScopedHooks)
  : completion unit * ScopedHooks :=
  let (c, m) := Basic.register (scoped_name (prefix s) name) fn (manager s) in
  (c, mk_scoped (prefix s) m).

Definition unregister (name : string) (s : ScopedHooks)
  : bool * ScopedHooks :=
  let (removed, m) :=
    Basic.unregister (scoped_name (prefix s) name) (manager s) in
  (removed, mk_scoped (prefix s) m).

Definition has (name : string) (s : ScopedHooks) : bool :=
  Basic.has (scoped_name (prefix s) name) (manager s).

Section On.
Context {Data : Type}.
Variable call : HookFunction -> Data -> behaviour.

Definition on (name : string) (data : Data) (s : ScopedHooks) : run :=
  Basic.on call (scoped_name (prefix s) name) data (manager s).
End On.

Definition list (s : ScopedHooks) : Datatypes.list string :=
  map (fun name => substring_from (String.length (prefix s) + 1) name)
    (filter (fun name => startsWith (prefix s ++ ":")%string name)
       (Basic.list (manager s))).

End Scoped.

(* ================================================================== *)
(** * Vocabulary of the statements *)

(** ** Sequences of calls on a priority registry *)

(** One [register(name, fn, priority)] call; [None] is an omitted
    priority. *)
Definition registration : Type := (string * HookFunction * option Z)%type.

Definition register_all (regs : list registration) (hooks : Priority.Hooks)
  : Priority.Hooks :=
  fold_left (fun h r => let '(name, fn, p) := r in Priority.register name fn p h)
    regs hooks.

(** The entries registered under [name], in registration order. *)
Fixpoint registered_for (name : string) (regs : list registration)
  : list Priority.entry :=
  match regs with
  | [] => []
  | (n, f, p) :: regs' =>
      let e := Priority.mk_entry (match p with Some p => p | None => 10%Z end) f in
      if String.eqb n name then e :: registered_for name regs'
      else registered_for name regs'
  end.

(** Higher priority first. *)
Definition descending (a b : Priority.entry) : Prop :=
  (Priority.priority a >= Priority.priority b)%Z.

Definition has_priority (p : Z) (e : Priority.entry) : bool :=
  (Priority.priority e =? p)%Z.

(** [l] is [original] stably sorted by descending priority: it is sorted
    and the entries of each priority appear as they do in [original]. *)
Definition stably_sorted (l original : list Priority.entry) : Prop :=
  StronglySorted descending l /\
  forall p, filter (has_priority p) l = filter (has_priority p) original.

Inductive priority_op : Type :=
| PRegister (name : string) (fn : HookFunction) (priority : option Z)
| PUnregister (name : string) (fn : option HookFunction)
| POn (name : string).

(** [on] only reads the map.  In a sequence each call has finished before
    the next one starts; a sequence describes the contents of the map, not
    an [on] that is still suspended while another call runs. *)
Definition priority_apply (hooks : Priority.Hooks) (o : priority_op)
  : Priority.Hooks :=
  match o with
  | PRegister name fn p => Priority.register name fn p hooks
  | PUnregister name fn => snd (Priority.unregister name fn hooks)
  | POn _ => hooks
  end.

Definition priority_run (ops : list priority_op) : Priority.Hooks :=
  fold_left priority_apply ops Priority.createPriorityHookManager.

(** ** Sequences of calls on a parallel registry *)

Inductive parallel_op : Type :=
| LRegister (name : string) (fn : HookFunction)
| LUnregister (name : string) (fn : option HookFunction)
| LOn (name : string) (parallel : bool).

Definition parallel_apply (hooks : Parallel.Hooks) (o : parallel_op)
  : Parallel.Hooks :=
  match o with
  | LRegister name fn => Parallel.register name fn hooks
  | LUnregister name fn => snd (Parallel.unregister name fn hooks)
  | LOn _ _ => hooks
  end.

Definition parallel_run (ops : list parallel_op) : Parallel.Hooks :=
  fold_left parallel_apply ops Parallel.createParallelHookManager.

(** ** Sequences of calls on a scoped registry (the surface of the basic
    one) *)

Inductive basic_op : Type :=
| BRegister (name : string) (fn : HookFunction)
| BUnregister (name : string)
| BOn (name : string).

Definition scoped_apply (s : Scoped.ScopedHooks) (o : basic_op)
  : Scoped.ScopedHooks :=
  match o with
  | BRegister name fn => snd (Scoped.register name fn s)
  | BUnregister name => snd (Scoped.unregister name s)
  | BOn _ => s
  end.

Definition scoped_run (prefix : string) (ops : list basic_op)
  : Scoped.ScopedHooks :=
  fold_left scoped_apply ops (Scoped.createScopedHookManager prefix).

(** Every name of the inner registry carries the prefix. *)
Definition all_scoped (s : Scoped.ScopedHooks) : Prop :=
  Forall (fun k => exists n, k = Scoped.scoped_name (Scoped.prefix s) n)
    (JSMap.keys (Scoped.manager s)).

(** What [on] may reject with: always a [HookError]; a
    [HookNotFoundError] when no callback was called, and otherwise an
    error of class [HookError] itself, with that [name]. *)
Definition on_error_kinds (r : run) : Prop :=
  forall t e,
    result r = Rejected t e ->
    instanceof e HookError = true /\
    ((events r = [] /\ err_class e = HookNotFoundError /\
      err_name e = "HookNotFoundError") \/
     (events r <> [] /\ err_class e = HookError /\
      err_name e = "HookError")).

(** What [register] may throw: a [DuplicateHookError]. *)
Definition register_error_kind (c : completion unit) : Prop :=
  forall e,
    c = Throw e ->
    instanceof e HookError = true /\
    err_class e = DuplicateHookError /\ err_name e = "DuplicateHookError".

(** No stored list is empty. *)
Definition lists_nonempty {V : Type} (hooks : JSMap.t (list V)) : Prop :=
  forall name l, JSMap.get name hooks = Some l -> l <> [].

(** The invariant of the two list registries. *)
Definition registry_inv {V : Type} (hooks : JSMap.t (list V)) : Prop :=
  JSMap.wf hooks /\ lists_nonempty hooks.

(** The array stored under [name], empty when there is none: what
    [Priority.get_list] and [Parallel.get_list] both are. *)
Definition stored {V : Type} (name : string) (hooks : JSMap.t (list V))
  : list V :=
  match JSMap.get name hooks with
  | Some hooksList => hooksList
  | None => []
  end.

(** The body both [unregister] functions share when [fn] is given, with the
    test of the [filter] as a parameter. *)
Definition remove_matching {V : Type} (keep : V -> bool) (name : string)
    (hooks : JSMap.t (list V)) : bool * JSMap.t (list V) :=
  if negb (JSMap.has name hooks) then (false, hooks)
  else
    let hooksList := stored name hooks in
    let newHooks := filter keep hooksList in
    let hooks1 := JSMap.set name newHooks hooks in
    (negb (Nat.eqb (List.length hooksList) (List.length newHooks)),
     if Nat.eqb (List.length newHooks) 0 then JSMap.delete name hooks1
     else hooks1).

(** ** Behaviour of callbacks *)

Definition fulfils (b : behaviour) : Prop := exists d, b = Settles d Fulfil.

(** The call throws, or the promise it returns rejects, with [e]. *)
Definition fails_with (b : behaviour) (e : thrown) : Prop :=
  b = Throws e \/ exists d, b = Settles d (Reject e).

Definition fails (b : behaviour) : Prop := exists e, fails_with b e.

Definition throws_sync (b : behaviour) : Prop := exists e, b = Throws e.

(** The promise [Promise.resolve(hook(data))] evaluates to when the call at
    time [t] returns, and the settlement it leads to. *)
Definition promise_of {Data : Type} (call : HookFunction -> Data -> behaviour)
    (data : Data) (t : nat) (f : HookFunction) : promise :=
  match call f data with
  | Settles d o => SettlesAt (t + d) o
  | _ => NeverSettles
  end.

Definition settlement_of {Data : Type}
    (call : HookFunction -> Data -> behaviour)
    (data : Data) (t : nat) (f : HookFunction) : list event :=
  match call f data with
  | Settles d o => [Settled (t + d) f o]
  | _ => []
  end.

(** [s] occurs inside [big]. *)
Definition contains (big s : string) : Prop :=
  exists before after, big = (before ++ s ++ after)%string.


(** The [catch] block maps what was thrown to this error. *)
Definition wraps (name : string) (e : thrown) (err : js_error) : Prop :=
  err_class err = HookError /\
  err_name err = "HookError" /\
  contains (err_message err) name /\
  match e with
  | ErrorInstance message => contains (err_message err) message
  | NonError _ =>
      err_message err = ("Unknown error in hook " ++ dq ++ name ++ dq)%string
  end.

(** ** Shape of the event list of a sequential run

    From time [t] on: a callback is invoked, it settles, and only if it
    was fulfilled is the next one invoked, not earlier than that
    settlement; nothing follows a callback that threw, rejected or did not
    settle. *)
Fixpoint strictly_sequential (t : nat) (evs : list event) : bool :=
  match evs with
  | [] => true
  | Invoked t1 f :: evs1 =>
      (t <=? t1) &&
      match evs1 with
      | [] => true
      | Settled t2 g o :: evs2 =>
          (t1 <=? t2) && Nat.eqb f g &&
          match o with
          | Fulfil => strictly_sequential t2 evs2
          | Reject _ => match evs2 with [] => true | _ :: _ => false end
          end
      | Invoked _ _ :: _ => false
      end
  | Settled _ _ _ :: _ => false
  end.




(* ================================================================== *)
(** * Concrete registries and callbacks used in the examples *)

(** Every callback returns at once. *)
Definition call_ok (_ : HookFunction) (_ : unit) : behaviour :=
  Settles 0 Fulfil.

(** Callback 1 takes two ticks, callback 2 throws [Error("boom")]. *)
Definition call_second_throws (f : HookFunction) (_ : unit) : behaviour :=
  match f with
  | 1 => Settles 2 Fulfil
  | 2 => Throws (ErrorInstance "boom")
  | _ => Settles 0 Fulfil
  end.



(** Callback 1 throws when called, callback 2 would return at once. *)
Definition call_first_throws (f : HookFunction) (_ : unit) : behaviour :=
  match f with
  | 1 => Throws (ErrorInstance "boom")
  | _ => Settles 0 Fulfil
  end.

(** Priorities 5, 20, 10 registered in that order under ["init"]. *)
Definition init_5_20_10 : Priority.Hooks :=
  register_all
    [("init", 1, Some 5%Z); ("init", 2, Some 20%Z); ("init", 3, Some 10%Z)]
    Priority.createPriorityHookManager.

(** Callbacks 3, 1, 2 with priorities 10, 30, 20 under ["save"]. *)
Definition save_10_30_20 : Priority.Hooks :=
  register_all
    [("save", 3, Some 10%Z); ("save", 1, Some 30%Z); ("save", 2, Some 20%Z)]
    Priority.createPriorityHookManager.

(** Callbacks 1 and 2 under ["x"], in that order. *)
Definition parallel_x_1_2 : Parallel.Hooks :=
  Parallel.register "x" 2
    (Parallel.register "x" 1 Parallel.createParallelHookManager).

(** One callback under ["test"]. *)
Definition basic_test_1 : Basic.HookMap :=
  snd (Basic.register "test" 1 Basic.createHookManager).

(** Prefix ["user"], one callback under ["login"]. *)
Definition scoped_user_login : Scoped.ScopedHooks :=
  snd (Scoped.register "login" 1 (Scoped.createScopedHookManager "user")).

(* ================================================================== *)
(** * Vocabulary of the further properties *)

(** ** Sequences of calls on a basic registry *)

Definition basic_apply (hooks : Basic.HookMap) (o : basic_op)
  : Basic.HookMap :=
  match o with
  | BRegister name fn => snd (Basic.register name fn hooks)
  | BUnregister name => snd (Basic.unregister name hooks)
  | BOn _ => hooks
  end.

Definition basic_run (ops : list basic_op) : Basic.HookMap :=
  fold_left basic_apply ops Basic.createHookManager.

(** [register] called for each pair in turn, errors caught and ignored. *)
Definition basic_register_all (regs : list (string * HookFunction))
    (hooks : Basic.HookMap) : Basic.HookMap :=
  fold_left (fun h r => snd (Basic.register (fst r) (snd r) h)) regs hooks.

(** ** Sequences of [register] calls on a parallel registry *)

Definition parallel_register_all (regs : list (string * HookFunction))
    (hooks : Parallel.Hooks) : Parallel.Hooks :=
  fold_left (fun h r => Parallel.register (fst r) (snd r) h) regs hooks.

(** The callbacks registered under [name], in registration order. *)
Definition parallel_registered_for (name : string)
    (regs : list (string * HookFunction)) : list HookFunction :=
  map snd (filter (fun r => String.eqb (fst r) name) regs).

(** Every stored list of a priority registry is in descending priority. *)
Definition lists_sorted (hooks : Priority.Hooks) : Prop :=
  forall name l, JSMap.get name hooks = Some l -> StronglySorted descending l.

(** ** Durations *)

(** How long the promise of [hook(data)] takes to settle. *)
Definition duration {Data : Type} (call : HookFunction -> Data -> behaviour)
    (data : Data) (f : HookFunction) : nat :=
  match call f data with
  | Settles d _ => d
  | _ => 0
  end.

Definition total_duration {Data : Type}
    (call : HookFunction -> Data -> behaviour) (data : Data)
    (l : list HookFunction) : nat :=
  list_sum (map (duration call data) l).


Definition hangs (b : behaviour) : Prop := b = Hangs.

(** ** More concrete callbacks *)

(** The three fetches of the README: 10, 15 and 8 ticks. *)
Definition call_three_fetches (f : HookFunction) (_ : unit) : behaviour :=
  match f with
  | 1 => Settles 10 Fulfil
  | 2 => Settles 15 Fulfil
  | _ => Settles 8 Fulfil
  end.

(** Callback 1 never settles, callback 2 rejects after three ticks. *)
Definition call_hang_then_reject (f : HookFunction) (_ : unit) : behaviour :=
  match f with
  | 1 => Hangs
  | _ => Settles 3 (Reject (ErrorInstance "late"))
  end.

(** Callbacks 1, 2, 3 under ["fetchData"], in that order. *)
Definition parallel_fetch_1_2_3 : Parallel.Hooks :=
  parallel_register_all
    [("fetchData", 1); ("fetchData", 2); ("fetchData", 3)]
    Parallel.createParallelHookManager.

(* ================================================================== *)
(** * Lemmas on [JSMap] *)

Section JSMapFacts.
Context {V : Type}.
Implicit Types (m : JSMap.t V) (k : string) (v : V).

Lemma get_set_same k v m : JSMap.get k (JSMap.set k v m) = Some v.
Proof.
  induction m as [|[k' v'] m IH]; simpl.
  - now rewrite String.eqb_refl.
  - destruct (String.eqb k' k) eqn:E; simpl; rewrite E; auto.
Qed.

Lemma get_set_other k k' v m :
  k <> k' -> JSMap.get k' (JSMap.set k v m) = JSMap.get k' m.
Proof.
  intros Hne. induction m as [|[k0 v0] m IH]; simpl.
  - destruct (String.eqb k k') eqn:E; auto.
    apply String.eqb_eq in E. contradiction.
  - destruct (String.eqb k0 k) eqn:E; simpl.
    + apply String.eqb_eq in E. subst k0.
      destruct (String.eqb k k') eqn:E'; auto.
      apply String.eqb_eq in E'. contradiction.
    + now rewrite IH.
Qed.

Lemma has_iff_in_keys k m : JSMap.has k m = true <-> In k (JSMap.keys m).
Proof.
  unfold JSMap.has. induction m as [|[k' v'] m IH]; simpl.
  - split; [discriminate | tauto].
  - destruct (String.eqb k' k) eqn:E.
    + apply String.eqb_eq in E. tauto.
    + apply String.eqb_neq in E. tauto.
Qed.

Lemma has_false_get k m : JSMap.has k m = false <-> JSMap.get k m = None.
Proof.
  unfold JSMap.has. destruct (JSMap.get k m); split; congruence.
Qed.

Lemma keys_set k v m :
  JSMap.keys (JSMap.set k v m) =
  if JSMap.has k m then JSMap.keys m else JSMap.keys m ++ [k].
Proof.
  unfold JSMap.has. induction m as [|[k' v'] m IH]; simpl; auto.
  destruct (String.eqb k' k) eqn:E; simpl; auto.
  rewrite IH. destruct (JSMap.get k m); auto.
Qed.

Lemma in_keys_delete k k' m :
  In k' (JSMap.keys (JSMap.delete k m)) -> In k' (JSMap.keys m).
Proof.
  induction m as [|[k0 v0] m IH]; simpl; auto.
  destruct (String.eqb k0 k); simpl; tauto.
Qed.

Lemma wf_set k v m : JSMap.wf m -> JSMap.wf (JSMap.set k v m).
Proof.
  unfold JSMap.wf. intros H. rewrite keys_set.
  destruct (JSMap.has k m) eqn:E; auto.
  apply NoDup_app; auto.
  - constructor; [tauto | constructor].
  - intros x Hx [Hk|[]]. subst x.
    apply has_iff_in_keys in Hx. congruence.
Qed.

Lemma wf_delete k m : JSMap.wf m -> JSMap.wf (JSMap.delete k m).
Proof.
  unfold JSMap.wf. induction m as [|[k0 v0] m IH]; simpl; auto.
  intros H. inversion H; subst.
  destruct (String.eqb k0 k); simpl; auto.
  constructor; auto. intros Hin. apply in_keys_delete in Hin. contradiction.
Qed.

Lemma get_delete_same k m :
  JSMap.wf m -> JSMap.get k (JSMap.delete k m) = None.
Proof.
  unfold JSMap.wf. induction m as [|[k0 v0] m IH]; simpl; auto.
  intros H. inversion H; subst.
  destruct (String.eqb k0 k) eqn:E; simpl.
  - apply String.eqb_eq in E. subst k0.
    apply has_false_get. destruct (JSMap.has k m) eqn:Hh; auto.
    apply has_iff_in_keys in Hh. contradiction.
  - rewrite E. auto.
Qed.

Lemma get_delete_other k k' m :
  k <> k' -> JSMap.get k' (JSMap.delete k m) = JSMap.get k' m.
Proof.
  intros Hne. induction m as [|[k0 v0] m IH]; simpl; auto.
  destruct (String.eqb k0 k) eqn:E; simpl.
  - apply String.eqb_eq in E. subst k0.
    destruct (String.eqb k k') eqn:E'; auto.
    apply String.eqb_eq in E'. contradiction.
  - now rewrite IH.
Qed.

Lemma has_set_same k v m : JSMap.has k (JSMap.set k v m) = true.
Proof. unfold JSMap.has. now rewrite get_set_same. Qed.

Lemma has_set_other k k' v m :
  k <> k' -> JSMap.has k' (JSMap.set k v m) = JSMap.has k' m.
Proof. intros. unfold JSMap.has. now rewrite get_set_other. Qed.
End JSMapFacts.

(* ================================================================== *)
(** * The sort of the priority registry *)

Section SortFacts.
Import Priority.

Lemma sort_insert_Forall (P : entry -> Prop) x l :
  P x -> Forall P l -> Forall P (sort_insert by_priority x l).
Proof.
  intros Hx Hl. induction Hl as [|y l Hy Hl IH]; simpl.
  - auto.
  - destruct (by_priority y x <=? 0)%Z; auto.
Qed.

Lemma sort_insert_sorted x l :
  StronglySorted descending l ->
  StronglySorted descending (sort_insert by_priority x l).
Proof.
  induction 1 as [|y l Hs IH Hy]; simpl.
  - repeat constructor.
  - destruct (by_priority y x <=? 0)%Z eqn:E.
    + constructor; auto. apply sort_insert_Forall; auto.
      apply Z.leb_le in E. unfold descending, by_priority in *. lia.
    + apply Z.leb_gt in E. constructor.
      * constructor; auto.
      * constructor.
        -- unfold descending, by_priority in *. lia.
        -- eapply Forall_impl; [|exact Hy].
           unfold descending, by_priority in *. intros; lia.
Qed.

Lemma filter_none_below p y l :
  (priority y < p)%Z -> Forall (descending y) l ->
  filter (has_priority p) (y :: l) = [].
Proof.
  intros Hlt Hl. simpl. unfold has_priority at 1.
  destruct (Z.eqb_spec (priority y) p); [lia|].
  induction Hl as [|z l Hz Hl IH]; simpl; auto.
  unfold has_priority at 1. unfold descending in Hz.
  destruct (Z.eqb_spec (priority z) p); [lia | auto].
Qed.

Lemma sort_insert_filter p x l :
  StronglySorted descending l ->
  filter (has_priority p) (sort_insert by_priority x l) =
  filter (has_priority p) l ++ filter (has_priority p) [x].
Proof.
  induction 1 as [|y l Hs IH Hy]; simpl sort_insert.
  - reflexivity.
  - destruct (by_priority y x <=? 0)%Z eqn:E.
    + simpl. simpl in IH. rewrite IH. destruct (has_priority p y); auto.
    + apply Z.leb_gt in E. unfold by_priority in E.
      change (x :: y :: l) with ([x] ++ (y :: l)). rewrite filter_app.
      simpl (filter _ [x]). unfold has_priority at 1 4.
      destruct (Z.eqb_spec (priority x) p).
      * rewrite (filter_none_below p y l); auto. lia.
      * simpl. now rewrite app_nil_r.
Qed.

Lemma fold_insert_sorted l acc :
  StronglySorted descending acc ->
  StronglySorted descending
    (fold_left (fun sorted x => sort_insert by_priority x sorted) l acc).
Proof.
  revert acc. induction l as [|x l IH]; simpl; intros acc H; auto.
  apply IH. now apply sort_insert_sorted.
Qed.

Lemma fold_insert_filter p l acc :
  StronglySorted descending acc ->
  filter (has_priority p)
    (fold_left (fun sorted x => sort_insert by_priority x sorted) l acc) =
  filter (has_priority p) acc ++ filter (has_priority p) l.
Proof.
  revert acc. induction l as [|x l IH]; simpl fold_left; intros acc H.
  - simpl. now rewrite app_nil_r.
  - rewrite IH by now apply sort_insert_sorted.
    rewrite sort_insert_filter by assumption.
    rewrite <- app_assoc. simpl. destruct (has_priority p x); reflexivity.
Qed.

(** The model of [sort] is a stable sort, on any array. *)
Lemma Array_sort_stably_sorted l :
  stably_sorted (Array_sort by_priority l) l.
Proof.
  split.
  - apply fold_insert_sorted. constructor.
  - intros p. unfold Array_sort. rewrite fold_insert_filter by constructor.
    reflexivity.
Qed.

(** A stable sort by priority has one possible result: two arrays that are
    both sorted and agree, priority by priority, are the same array. *)
Lemma stable_sort_unique l1 :
  forall l2,
    StronglySorted descending l1 -> StronglySorted descending l2 ->
    (forall p, filter (has_priority p) l1 = filter (has_priority p) l2) ->
    l1 = l2.
Proof.
  induction l1 as [|x l1 IH]; intros l2 H1 H2 Hf.
  - destruct l2 as [|y l2]; auto.
    specialize (Hf (priority y)). simpl in Hf.
    unfold has_priority at 1 in Hf. rewrite Z.eqb_refl in Hf. discriminate.
  - destruct l2 as [|y l2].
    + specialize (Hf (priority x)). simpl in Hf.
      unfold has_priority at 1 in Hf. rewrite Z.eqb_refl in Hf. discriminate.
    + inversion H1 as [|? ? Hs1 Hx]; subst.
      inversion H2 as [|? ? Hs2 Hy]; subst.
      assert (Hin : forall a l, In a l -> In a (filter (has_priority (priority a)) l)).
      { intros a l Ha. apply filter_In. split; auto.
        unfold has_priority. apply Z.eqb_refl. }
      assert (Hxy : (priority x >= priority y)%Z).
      { assert (Hy' : In y (x :: l1)).
        { pose proof (Hin y (y :: l2) (or_introl eq_refl)) as Hi.
          rewrite <- Hf in Hi. apply filter_In in Hi. tauto. }
        destruct Hy' as [->|Hy']; [lia|].
        rewrite Forall_forall in Hx. apply Hx. exact Hy'. }
      assert (Hyx : (priority y >= priority x)%Z).
      { assert (Hx' : In x (y :: l2)).
        { pose proof (Hin x (x :: l1) (or_introl eq_refl)) as Hi.
          rewrite Hf in Hi. apply filter_In in Hi. tauto. }
        destruct Hx' as [->|Hx']; [lia|].
        rewrite Forall_forall in Hy. apply Hy. exact Hx'. }
      assert (x = y).
      { specialize (Hf (priority x)). simpl in Hf.
        assert (Ex : has_priority (priority x) x = true)
          by apply Z.eqb_refl.
        assert (Ey : has_priority (priority x) y = true)
          by (apply Z.eqb_eq; lia).
        rewrite Ex, Ey in Hf. congruence. }
      subst y. f_equal. apply IH; auto.
      intros p. specialize (Hf p). simpl in Hf.
      destruct (has_priority p x); congruence.
Qed.
End SortFacts.

(* ================================================================== *)
(** * The sequential loop *)

Section LoopFacts.
Context {Data : Type}.
Variable call : HookFunction -> Data -> behaviour.

(** When every callback fulfils, the loop calls all of them, in order. *)
Lemma for_await_all_fulfil data l :
  forall t,
    (forall f, In f l -> fulfils (call f data)) ->
    invoked (fst (for_await call t l data)) = l /\
    exists t', snd (for_await call t l data) = Continue t'.
Proof.
  induction l as [|f l IH]; intros t Hall; simpl.
  - split; eauto.
  - destruct (Hall f (or_introl eq_refl)) as [d Hd].
    unfold await_call. rewrite Hd.
    destruct (IH (t + d) (fun g Hg => Hall g (or_intror Hg))) as [Hi [t' Ht']].
    destruct (for_await call (t + d) l data) as [evs fl]. simpl in *.
    split; [now rewrite Hi | eauto].
Qed.

(** The loop stops at the first callback that fails: the callbacks before
    it and the failing one are called, no other. *)
Lemma for_await_first_failure data pre f post e :
  forall t,
    (forall g, In g pre -> fulfils (call g data)) ->
    fails_with (call f data) e ->
    invoked (fst (for_await call t (pre ++ f :: post) data)) = pre ++ [f] /\
    exists t', snd (for_await call t (pre ++ f :: post) data) = Raise t' e.
Proof.
  induction pre as [|g pre IH]; intros t Hpre Hf; simpl.
  - unfold await_call.
    destruct Hf as [Hf|[d Hf]]; rewrite Hf; simpl; eauto.
  - destruct (Hpre g (or_introl eq_refl)) as [d Hd].
    unfold await_call. rewrite Hd.
    destruct (IH (t + d) (fun h Hh => Hpre h (or_intror Hh)) Hf)
      as [Hi [t' Ht']].
    destruct (for_await call (t + d) (pre ++ f :: post) data) as [evs fl].
    simpl in *. split; [now rewrite Hi | eauto].
Qed.
End LoopFacts.

(* ================================================================== *)
(** * Priority registry: what is stored under a name *)

Lemma priority_get_list_register name' name fn p hooks :
  Priority.get_list name' (Priority.register name fn p hooks) =
  if String.eqb name name'
  then Array_sort Priority.by_priority
         (Priority.get_list name hooks ++
          [Priority.mk_entry (match p with Some p => p | None => 10%Z end) fn])
  else Priority.get_list name' hooks.
Proof.
  unfold Priority.register, Priority.get_list.
  destruct (String.eqb_spec name name') as [<-|Hne].
  - rewrite get_set_same.
    destruct (JSMap.has name hooks) eqn:Hh; simpl; auto.
    rewrite get_set_same. apply has_false_get in Hh. now rewrite Hh.
  - rewrite get_set_other by assumption.
    destruct (JSMap.has name hooks); simpl; auto.
    now rewrite get_set_other.
Qed.

Lemma register_all_snoc regs r hooks :
  register_all (regs ++ [r]) hooks =
  (let '(name, fn, p) := r in
   Priority.register name fn p (register_all regs hooks)).
Proof. unfold register_all. now rewrite fold_left_app. Qed.

Lemma registered_for_snoc name regs n f p :
  registered_for name (regs ++ [(n, f, p)]) =
  registered_for name regs ++
  (if String.eqb n name
   then [Priority.mk_entry (match p with Some p => p | None => 10%Z end) f]
   else []).
Proof.
  induction regs as [|[[n0 f0] p0] regs IH]; simpl.
  - destruct (String.eqb n name); auto.
  - rewrite IH. destruct (String.eqb n0 name); auto.
Qed.

Lemma register_all_stably_sorted regs name :
  stably_sorted
    (Priority.get_list name
       (register_all regs Priority.createPriorityHookManager))
    (registered_for name regs).
Proof.
  induction regs as [|[[n f] p] regs IH] using rev_ind.
  - split; [constructor | reflexivity].
  - rewrite register_all_snoc, registered_for_snoc.
    rewrite priority_get_list_register.
    destruct (String.eqb_spec n name) as [->|Hne].
    + destruct IH as [_ IHf].
      destruct (Array_sort_stably_sorted
                  (Priority.get_list name
                     (register_all regs Priority.createPriorityHookManager) ++
                   [Priority.mk_entry
                      (match p with Some p => p | None => 10%Z end) f]))
        as [Hs Hf].
      split; auto.
      intros q. rewrite Hf, !filter_app, IHf. reflexivity.
    + now rewrite app_nil_r.
Qed.

Lemma priority_on_events {Data : Type}
    (call : HookFunction -> Data -> behaviour) name data hooks :
  events (Priority.on call name data hooks) =
  fst (for_await call 0 (map Priority.fn (Priority.get_list name hooks)) data).
Proof.
  unfold Priority.on.
  destruct (negb (JSMap.has name hooks)
            || Nat.eqb (List.length (Priority.get_list name hooks)) 0) eqn:E.
  - simpl. apply orb_true_iff in E. destruct E as [E|E].
    + apply negb_true_iff, has_false_get in E.
      unfold Priority.get_list. now rewrite E.
    + apply Nat.eqb_eq in E.
      destruct (Priority.get_list name hooks); [reflexivity | discriminate].
  - destruct (for_await call 0 _ data); reflexivity.
Qed.

(** C1.  After any sequence of [register] calls on a fresh priority
    registry, the list stored under a name is the registrations for that
    name stably sorted by descending priority (equal priorities stay in
    registration order), and [on(name)] calls the callbacks in the order of
    that list; registrations with priorities 5, 20, 10 are called in the
    order 20, 10, 5. *)
Theorem priority_on_order :
  forall (Data : Type) (call : HookFunction -> Data -> behaviour)
         (data : Data) (regs : list registration) (name : string),
    let hooks := register_all regs Priority.createPriorityHookManager in
    let l := Priority.get_list name hooks in
    stably_sorted l (registered_for name regs) /\
    ((forall f, In f (map Priority.fn l) -> fulfils (call f data)) ->
     invoked (events (Priority.on call name data hooks)) = map Priority.fn l) /\
    (forall f5 f20 f10 : HookFunction,
        map Priority.fn
          (Priority.get_list "init"
             (register_all
                [("init", f5, Some 5%Z); ("init", f20, Some 20%Z);
                 ("init", f10, Some 10%Z)]
                Priority.createPriorityHookManager)) = [f20; f10; f5]).
Proof.
  intros Data call data regs name hooks l. split; [|split].
  - apply register_all_stably_sorted.
  - intros Hall. rewrite priority_on_events.
    apply (for_await_all_fulfil call data (map Priority.fn l) 0 Hall).
  - intros. reflexivity.
Qed.

Lemma priority_on_order_witness :
  invoked (events (Priority.on call_ok "init" tt init_5_20_10)) = [2; 3; 1].
Proof.
  apply (proj1 (proj2 (priority_on_order unit call_ok tt
           [("init", 1, Some 5%Z); ("init", 2, Some 20%Z);
            ("init", 3, Some 10%Z)] "init"))).
  intros f _. exists 0. reflexivity.
Defined.

(* ================================================================== *)
(** * Strings *)

Lemma append_assoc_s (a b c : string) :
  ((a ++ b) ++ c)%string = (a ++ (b ++ c))%string.
Proof. induction a as [|ch a IH]; simpl; [reflexivity | now rewrite IH]. Qed.

Lemma append_empty_r (a : string) : (a ++ EmptyString)%string = a.
Proof. induction a as [|ch a IH]; simpl; [reflexivity | now rewrite IH]. Qed.

Lemma length_append (a b : string) :
  String.length (a ++ b)%string = String.length a + String.length b.
Proof. induction a as [|ch a IH]; simpl; [reflexivity | now rewrite IH]. Qed.

Lemma prefix_append (a b : string) : String.prefix a (a ++ b)%string = true.
Proof.
  induction a as [|ch a IH]; simpl.
  - now destruct b.
  - destruct (ascii_dec ch ch); [assumption | contradiction].
Qed.


Lemma substring_from_append (a b : string) :
  substring_from (String.length a) (a ++ b)%string = b.
Proof.
  induction a as [|ch a IH]; simpl; auto.
Qed.




(* ================================================================== *)
(** * The [catch] block *)

Lemma catch_rethrow_wraps name t e :
  exists err, catch_rethrow name (Raise t e) = Rejected t err /\
              wraps name e err.
Proof.
  destruct e as [message|v]; simpl; eexists; (split; [reflexivity|]);
    unfold wraps; simpl; repeat split.
  - exists ("Error in hook " ++ dq)%string, (dq ++ ": " ++ message)%string.
    reflexivity.
  - exists ("Error in hook " ++ dq ++ name ++ dq ++ ": ")%string, EmptyString.
    rewrite append_empty_r. simpl. rewrite !append_assoc_s. reflexivity.
  - exists ("Unknown error in hook " ++ dq)%string, dq. reflexivity.
Qed.

(** The error built for a value that is not an [Error] does not depend on
    that value. *)
Lemma catch_rethrow_generic name t v v' :
  catch_rethrow name (Raise t (NonError v)) =
  catch_rethrow name (Raise t (NonError v')).
Proof. reflexivity. Qed.


(* ================================================================== *)
(** * Basic registry *)

Lemma invoked_app evs1 evs2 :
  invoked (evs1 ++ evs2) = invoked evs1 ++ invoked evs2.
Proof.
  induction evs1 as [|[t f|t f o] evs1 IH]; simpl; auto. now rewrite IH.
Qed.

Lemma await_call_invoked {Data : Type}
    (call : HookFunction -> Data -> behaviour) t hook data :
  invoked (fst (await_call call t hook data)) = [hook].
Proof.
  unfold await_call. destruct (call hook data) as [e|d [|e]|]; reflexivity.
Qed.


Lemma basic_on_registered {Data : Type}
    (call : HookFunction -> Data -> behaviour) name data hooks hook :
  JSMap.get name hooks = Some hook ->
  Basic.on call name data hooks =
  mk_run (catch_rethrow name (snd (await_call call 0 hook data)))
         (fst (await_call call 0 hook data)).
Proof.
  intros H. unfold Basic.on. rewrite H.
  now destruct (await_call call 0 hook data).
Qed.

Lemma basic_on_unregistered {Data : Type}
    (call : HookFunction -> Data -> behaviour) name data hooks :
  JSMap.has name hooks = false ->
  Basic.on call name data hooks =
  mk_run (Rejected 0 (new_HookNotFoundError name)) [].
Proof.
  intros H. apply has_false_get in H. unfold Basic.on. now rewrite H.
Qed.

(** C2.  Registering a name that already has a callback throws
    [DuplicateHookError] and leaves the map as it was: the callback
    registered first stays, and it is the one [on(name)] calls. *)
Theorem basic_register_duplicate :
  forall (Data : Type) (call : HookFunction -> Data -> behaviour)
         (data : Data) (hooks : Basic.HookMap) (name : string)
         (first fn : HookFunction),
    JSMap.get name hooks = Some first ->
    Basic.register name fn hooks =
      (Throw (new_DuplicateHookError name), hooks) /\
    instanceof (new_DuplicateHookError name) DuplicateHookError = true /\
    JSMap.get name (snd (Basic.register name fn hooks)) = Some first /\
    Basic.on call name data (snd (Basic.register name fn hooks)) =
      Basic.on call name data hooks /\
    invoked
      (events (Basic.on call name data (snd (Basic.register name fn hooks))))
    = [first].
Proof.
  intros Data call data hooks name first fn Hget.
  assert (Hreg : Basic.register name fn hooks =
                 (Throw (new_DuplicateHookError name), hooks)).
  { unfold Basic.register, JSMap.has. now rewrite Hget. }
  rewrite Hreg. simpl snd. repeat split; auto.
  rewrite (basic_on_registered call name data hooks first Hget). simpl.
  apply await_call_invoked.
Qed.

Lemma basic_register_duplicate_witness :
  Basic.register "test" 2 basic_test_1 =
    (Throw (new_DuplicateHookError "test"), basic_test_1) /\
  invoked
    (events
       (Basic.on call_ok "test" tt
          (snd (Basic.register "test" 2 basic_test_1)))) = [1].
Proof.
  destruct (basic_register_duplicate unit call_ok tt
              basic_test_1 "test" 1 2 eq_refl) as (H1 & _ & _ & _ & H5).
  split; [exact H1 | exact H5].
Defined.

(* ================================================================== *)
(** * Scoped registry: errors name the translated hook *)

Lemma message_length_differs prefix n :
  err_message (new_HookNotFoundError (Scoped.scoped_name prefix n)) <>
  err_message (new_HookNotFoundError n).
Proof.
  unfold new_HookNotFoundError, Scoped.scoped_name. simpl. intros H.
  apply (f_equal String.length) in H.
  repeat (rewrite ?length_append in H; simpl in H). lia.
Qed.

(** C10.  On a scoped registry with prefix [p], [on(n)] for a name that is
    not registered rejects with a [HookNotFoundError] whose message names
    the translated hook [p:n], not the name [n] the caller gave. *)
Theorem scoped_not_found_names_prefixed :
  forall (Data : Type) (call : HookFunction -> Data -> behaviour)
         (data : Data) (s : Scoped.ScopedHooks) (n : string),
    Scoped.has n s = false ->
    exists e,
      Scoped.on call n data s = mk_run (Rejected 0 e) [] /\
      instanceof e HookNotFoundError = true /\
      err_message e =
        ("Hook " ++ dq ++ Scoped.prefix s ++ ":" ++ n ++ dq
         ++ " is not registered")%string /\
      err_message e <> err_message (new_HookNotFoundError n).
Proof.
  intros Data call data s n Hhas.
  exists (new_HookNotFoundError (Scoped.scoped_name (Scoped.prefix s) n)).
  repeat split.
  - unfold Scoped.on. now apply basic_on_unregistered.
  - unfold new_HookNotFoundError, Scoped.scoped_name. simpl.
    now rewrite !append_assoc_s.
  - apply message_length_differs.
Qed.

Lemma scoped_not_found_names_prefixed_witness :
  exists e,
    Scoped.on call_ok "logout" tt scoped_user_login
    = mk_run (Rejected 0 e) [] /\
    err_message e =
      ("Hook " ++ dq ++ "user:logout" ++ dq ++ " is not registered")%string.
Proof.
  destruct (scoped_not_found_names_prefixed unit call_ok tt
              scoped_user_login "logout" eq_refl) as (e & H1 & _ & H3 & _).
  exists e. split; [exact H1 | exact H3].
Defined.

(* ================================================================== *)
(** * Sequential execution: [Priority.on] and [Parallel.on] without the
      [parallel] flag *)

Section SequentialFacts.
Context {Data : Type}.
Variable call : HookFunction -> Data -> behaviour.

Lemma for_await_sequential data l :
  forall t, strictly_sequential t (fst (for_await call t l data)) = true.
Proof.
  induction l as [|f l IH]; intros t; simpl; auto.
  unfold await_call.
  destruct (call f data) as [e|d [|e]|]; simpl;
    rewrite ?Nat.leb_refl, ?Nat.eqb_refl; simpl; auto.
  - specialize (IH (t + d)).
    destruct (for_await call (t + d) l data) as [evs fl]. simpl in *.
    rewrite Nat.leb_refl, Nat.eqb_refl, IH.
    replace (t <=? t + d) with true by (symmetry; apply Nat.leb_le; lia).
    reflexivity.
  - replace (t <=? t + d) with true by (symmetry; apply Nat.leb_le; lia).
    reflexivity.
Qed.

Lemma for_await_prefix data l :
  forall t, exists rest, l = invoked (fst (for_await call t l data)) ++ rest.
Proof.
  induction l as [|f l IH]; intros t; simpl.
  - now exists [].
  - unfold await_call.
    destruct (call f data) as [e|d [|e]|]; simpl; try (now exists l).
    destruct (IH (t + d)) as [rest Hrest].
    destruct (for_await call (t + d) l data) as [evs fl]. simpl in *.
    exists rest. now rewrite <- Hrest.
Qed.


Lemma priority_on_found name data hooks :
  Priority.get_list name hooks <> [] ->
  Priority.on call name data hooks =
  mk_run
    (catch_rethrow name
       (snd (for_await call 0
               (map Priority.fn (Priority.get_list name hooks)) data)))
    (fst (for_await call 0
            (map Priority.fn (Priority.get_list name hooks)) data)).
Proof.
  intros Hne. unfold Priority.on.
  assert (Hhas : JSMap.has name hooks = true).
  { unfold Priority.get_list, JSMap.has in *.
    destruct (JSMap.get name hooks); congruence. }
  rewrite Hhas. simpl.
  destruct (Priority.get_list name hooks) as [|x l]; [congruence|].
  simpl Nat.eqb. cbv iota.
  now destruct (for_await call 0 (map Priority.fn (x :: l)) data).
Qed.

Lemma priority_on_not_found name data hooks :
  Priority.get_list name hooks = [] ->
  Priority.on call name data hooks =
  mk_run (Rejected 0 (new_HookNotFoundError name)) [].
Proof.
  intros He. unfold Priority.on. rewrite He. simpl.
  now rewrite orb_true_r.
Qed.

Lemma parallel_on_found name data parallel hooks :
  Parallel.get_list name hooks <> [] ->
  Parallel.on call name data parallel hooks =
  (let trial :=
     if parallel
     then Parallel.run_parallel call (Parallel.get_list name hooks) data
     else for_await call 0 (Parallel.get_list name hooks) data in
   mk_run (catch_rethrow name (snd trial)) (fst trial)).
Proof.
  intros Hne. unfold Parallel.on.
  assert (Hhas : JSMap.has name hooks = true).
  { unfold Parallel.get_list, JSMap.has in *.
    destruct (JSMap.get name hooks); congruence. }
  rewrite Hhas. simpl.
  destruct (Parallel.get_list name hooks) as [|x l]; [congruence|].
  simpl Nat.eqb. cbv iota.
  now destruct (if parallel then _ else _).
Qed.

Lemma parallel_on_not_found name data parallel hooks :
  Parallel.get_list name hooks = [] ->
  Parallel.on call name data parallel hooks =
  mk_run (Rejected 0 (new_HookNotFoundError name)) [].
Proof.
  intros He. unfold Parallel.on. rewrite He. simpl.
  now rewrite orb_true_r.
Qed.
End SequentialFacts.

Section FailFast.
Context {Data : Type}.
Variable call : HookFunction -> Data -> behaviour.

(** What a sequential [try] body over [l] yields, whatever the registry. *)
Lemma sequential_body_fail_fast name data l pre f post e :
  l = pre ++ f :: post ->
  (forall g, In g pre -> fulfils (call g data)) ->
  fails_with (call f data) e ->
  invoked (fst (for_await call 0 l data)) = pre ++ [f] /\
  exists t err,
    catch_rethrow name (snd (for_await call 0 l data)) = Rejected t err /\
    wraps name e err.
Proof.
  intros -> Hpre Hf.
  destruct (for_await_first_failure call data pre f post e 0 Hpre Hf)
    as [Hi [t' Ht']].
  split; [exact Hi|]. rewrite Ht'.
  destruct (catch_rethrow_wraps name t' e) as [err [H1 H2]]. eauto.
Qed.
End FailFast.

(** C5.  [Priority.on] and [Parallel.on] without the [parallel] flag call
    the callbacks one at a time in list order, each one only after the one
    before it has been fulfilled.  The first callback that throws or
    rejects ends the call: the callbacks before it and the failing one have
    been called, each once, those after it are not called, and [on]
    rejects with the wrapped error. *)
Theorem sequential_fail_fast :
  forall (Data : Type) (call : HookFunction -> Data -> behaviour)
         (data : Data) (name : string),
    (forall hooks : Priority.Hooks,
        let r := Priority.on call name data hooks in
        let l := map Priority.fn (Priority.get_list name hooks) in
        strictly_sequential 0 (events r) = true /\
        (exists rest, l = invoked (events r) ++ rest) /\
        (forall pre f post e,
            l = pre ++ f :: post ->
            (forall g, In g pre -> fulfils (call g data)) ->
            fails_with (call f data) e ->
            invoked (events r) = pre ++ [f] /\
            exists t err, result r = Rejected t err /\ wraps name e err)) /\
    (forall hooks : Parallel.Hooks,
        let r := Parallel.on call name data false hooks in
        let l := Parallel.get_list name hooks in
        strictly_sequential 0 (events r) = true /\
        (exists rest, l = invoked (events r) ++ rest) /\
        (forall pre f post e,
            l = pre ++ f :: post ->
            (forall g, In g pre -> fulfils (call g data)) ->
            fails_with (call f data) e ->
            invoked (events r) = pre ++ [f] /\
            exists t err, result r = Rejected t err /\ wraps name e err)).
Proof.
  intros Data call data name. split; intros hooks r l.
  - subst r l. rewrite priority_on_events.
    split; [apply for_await_sequential|].
    split; [apply for_await_prefix|].
    intros pre f post e Hl Hpre Hf.
    destruct (sequential_body_fail_fast call name data _ pre f post e
                Hl Hpre Hf) as [Hi Hr].
    split; [exact Hi|].
    assert (Hne : Priority.get_list name hooks <> []).
    { intros Hnil. rewrite Hnil in Hl. destruct pre; discriminate. }
    rewrite (priority_on_found call name data hooks Hne). exact Hr.
  - subst r l.
    destruct (Parallel.get_list name hooks) as [|x l] eqn:Hl.
    + rewrite (parallel_on_not_found call name data false hooks Hl). simpl.
      repeat split; try (now exists []);
        intros; destruct pre; discriminate.
    + assert (Hne : Parallel.get_list name hooks <> []) by congruence.
      rewrite (parallel_on_found call name data false hooks Hne).
      rewrite Hl. cbv beta iota zeta delta [result events].
      split; [apply for_await_sequential|].
      split; [apply for_await_prefix|].
      intros pre f post e Hsplit Hpre Hf.
      exact (sequential_body_fail_fast call name data _ pre f post e
               Hsplit Hpre Hf).
Qed.

Lemma sequential_fail_fast_witness :
  invoked (events (Priority.on call_second_throws "save" tt save_10_30_20))
  = [1; 2] /\
  exists t err,
    result (Priority.on call_second_throws "save" tt save_10_30_20)
    = Rejected t err /\
    wraps "save" (ErrorInstance "boom") err.
Proof.
  destruct (sequential_fail_fast unit call_second_throws tt "save")
    as [HP _].
  destruct (HP save_10_30_20) as (_ & _ & Hff).
  apply (Hff [1] 2 [3] (ErrorInstance "boom")).
  - reflexivity.
  - intros g [<-|[]]. exists 2. reflexivity.
  - left. reflexivity.
Defined.

(* ================================================================== *)
(** * Concurrent execution: [Parallel.on] with the [parallel] flag *)

Section ParallelFacts.
Context {Data : Type}.
Variable call : HookFunction -> Data -> behaviour.
Variable data : Data.

Lemma map_start_no_throw t l :
  (forall f, In f l -> ~ throws_sync (call f data)) ->
  map_start call t l data =
  (map (Invoked t) l, flat_map (settlement_of call data t) l,
   inl (map (promise_of call data t) l)).
Proof.
  induction l as [|f l IH]; intros Hno; simpl; auto.
  rewrite IH by (intros g Hg; apply Hno; now right).
  destruct (call f data) as [e|d o|] eqn:Hf.
  - exfalso. apply (Hno f (or_introl eq_refl)). now exists e.
  - unfold settlement_of, promise_of. now rewrite Hf.
  - unfold settlement_of, promise_of. now rewrite Hf.
Qed.

Lemma map_start_throw t pre f post e :
  (forall g, In g pre -> ~ throws_sync (call g data)) ->
  call f data = Throws e ->
  map_start call t (pre ++ f :: post) data =
  (map (Invoked t) (pre ++ [f]), flat_map (settlement_of call data t) pre,
   inr e).
Proof.
  induction pre as [|g pre IH]; intros Hno Hf; simpl.
  - now rewrite Hf.
  - specialize (IH (fun h Hh => Hno h (or_intror Hh)) Hf). rewrite IH.
    destruct (call g data) as [e0|d o|] eqn:Hg.
    + exfalso. apply (Hno g (or_introl eq_refl)). now exists e0.
    + unfold settlement_of. now rewrite Hg.
    + unfold settlement_of. now rewrite Hg.
Qed.

(** Either no callback of the list throws when called, or there is a first
    one that does. *)
Lemma first_thrower l :
  (forall f, In f l -> ~ throws_sync (call f data)) \/
  exists pre f post e,
    l = pre ++ f :: post /\
    (forall g, In g pre -> ~ throws_sync (call g data)) /\
    call f data = Throws e.
Proof.
  induction l as [|f l IH].
  - left. intros f [].
  - destruct (call f data) as [e|d o|] eqn:Hf.
    + right. exists [], f, l, e. repeat split; auto.
    + destruct IH as [IH|(pre & g & post & e & -> & Hpre & Hg)].
      * left. intros g [<-|Hg]; auto. intros [e He]. congruence.
      * right. exists (f :: pre), g, post, e. repeat split; auto.
        intros h [<-|Hh]; auto. intros [e' He']. congruence.
    + destruct IH as [IH|(pre & g & post & e & -> & Hpre & Hg)].
      * left. intros g [<-|Hg]; auto. intros [e He]. congruence.
      * right. exists (f :: pre), g, post, e. repeat split; auto.
        intros h [<-|Hh]; auto. intros [e' He']. congruence.
Qed.

Lemma invoked_map_Invoked t l : invoked (map (Invoked t) l) = l.
Proof. induction l; simpl; congruence. Qed.

Lemma invoked_settlements t l :
  invoked (flat_map (settlement_of call data t) l) = [].
Proof.
  induction l as [|f l IH]; simpl; auto.
  rewrite invoked_app, IH. unfold settlement_of.
  now destruct (call f data).
Qed.


Lemma settlements_in t l ev :
  In ev (flat_map (settlement_of call data t) l) ->
  exists f d o, In f l /\ call f data = Settles d o /\
                ev = Settled (t + d) f o.
Proof.
  intros H. apply in_flat_map in H. destruct H as (f & Hf & Hev).
  unfold settlement_of in Hev.
  destruct (call f data) as [e|d o|] eqn:E; simpl in Hev; try tauto.
  destruct Hev as [<-|[]]. eauto 7.
Qed.



Lemma promise_of_eq t f :
  promise_of call data t f =
  match call f data with
  | Settles d o => SettlesAt (t + d) o
  | _ => NeverSettles
  end.
Proof. reflexivity. Qed.

Lemma first_rejection_cons p ps :
  first_rejection (p :: ps) =
  match p with
  | SettlesAt t (Reject e) =>
      match first_rejection ps with
      | Some (t', e') => if t' <? t then Some (t', e') else Some (t, e)
      | None => Some (t, e)
      end
  | _ => first_rejection ps
  end.
Proof. reflexivity. Qed.

(** [Promise.all] reports a rejection exactly when a callback rejects, and
    then the earliest one. *)
Lemma first_rejection_none t l :
  first_rejection (map (promise_of call data t) l) = None ->
  forall g d e, In g l -> call g data <> Settles d (Reject e).
Proof.
  induction l as [|f l IH]; intros H g d e Hg Hc; [destruct Hg|].
  cbn [map] in H. rewrite first_rejection_cons, promise_of_eq in H.
  destruct Hg as [<-|Hg].
  - rewrite Hc in H.
    destruct (first_rejection _) as [[? ?]|]; [destruct (_ <? _)|];
      discriminate.
  - apply (IH) with (g := g) (d := d) (e := e); auto.
    destruct (call f data) as [?|? [|?]|]; auto.
    destruct (first_rejection _) as [[? ?]|]; [destruct (_ <? _)|];
      discriminate.
Qed.

Lemma first_rejection_some t l :
  forall t' e',
    first_rejection (map (promise_of call data t) l) = Some (t', e') ->
    (exists f d,
        In f l /\ call f data = Settles d (Reject e') /\ t' = t + d) /\
    (forall g d e,
        In g l -> call g data = Settles d (Reject e) -> t' <= t + d).
Proof.
  induction l as [|f l IH]; intros t' e' H; [discriminate|].
  cbn [map] in H. rewrite first_rejection_cons, promise_of_eq in H.
  assert (Hskip :
    (forall d e, call f data <> Settles d (Reject e)) ->
    first_rejection (map (promise_of call data t) l) = Some (t', e') ->
    (exists f0 d,
        In f0 (f :: l) /\ call f0 data = Settles d (Reject e') /\ t' = t + d)
    /\ (forall g d e,
           In g (f :: l) -> call g data = Settles d (Reject e) -> t' <= t + d)).
  { intros Hnr Hr. destruct (IH _ _ Hr) as [(g & d & Hg & Hc & Ht) Hmin].
    split.
    - exists g, d. repeat split; auto. now right.
    - intros h d' e [<-|Hh] Hc'; [now apply Hnr in Hc' | eauto]. }
  destruct (call f data) as [e0|d [|e0]|] eqn:Hf;
    try (apply Hskip; [congruence | exact H]).
  clear Hskip.
  destruct (first_rejection (map (promise_of call data t) l))
    as [[t1 e1]|] eqn:Hr.
  - destruct (IH _ _ eq_refl) as [(g & d' & Hg & Hc & Ht) Hmin].
    destruct (t1 <? t + d) eqn:Hlt; injection H as <- <-.
    + apply Nat.ltb_lt in Hlt. split.
      * exists g, d'. repeat split; auto. now right.
      * intros h d'' e [<-|Hh] Hc'; [|eauto].
        rewrite Hf in Hc'. injection Hc' as <- _. lia.
    + apply Nat.ltb_ge in Hlt. split.
      * exists f, d. repeat split; auto. now left.
      * intros h d'' e [<-|Hh] Hc'.
        -- rewrite Hf in Hc'. injection Hc' as <- _. lia.
        -- specialize (Hmin h d'' e Hh Hc'). lia.
  - injection H as <- <-. split.
    + exists f, d. repeat split; auto. now left.
    + intros h d'' e [<-|Hh] Hc'.
      * rewrite Hf in Hc'. injection Hc' as <- _. lia.
      * exfalso. exact (first_rejection_none t l Hr h d'' e Hh Hc').
Qed.

Lemma all_fulfilled_cons t0 p ps :
  all_fulfilled t0 (p :: ps) =
  match p with
  | SettlesAt t' Fulfil => all_fulfilled (Nat.max t0 t') ps
  | _ => None
  end.
Proof. destruct p as [t' [|e]|]; reflexivity. Qed.

(** [Promise.all] resolves once the last callback has been fulfilled. *)
Lemma all_fulfilled_some t l :
  forall t0 tm,
    all_fulfilled t0 (map (promise_of call data t) l) = Some tm ->
    t0 <= tm /\
    forall g d o, In g l -> call g data = Settles d o -> t + d <= tm.
Proof.
  induction l as [|f l IH]; intros t0 tm H.
  - injection H as <-. split; [lia | intros g d o []].
  - cbn [map] in H. rewrite all_fulfilled_cons, promise_of_eq in H.
    destruct (call f data) as [e0|d [|e0]|] eqn:Hf; try discriminate.
    destruct (IH _ _ H) as [Hle Hall]. split; [lia|].
    intros g d' o [<-|Hg] Hc; [|eauto].
    rewrite Hf in Hc. injection Hc as <- _. lia.
Qed.

Lemma all_fulfilled_total t l :
  (forall g, In g l -> fulfils (call g data)) ->
  forall t0, exists tm,
    all_fulfilled t0 (map (promise_of call data t) l) = Some tm.
Proof.
  induction l as [|f l IH]; intros Hall t0.
  - simpl. eauto.
  - cbn [map]. rewrite all_fulfilled_cons, promise_of_eq.
    destruct (Hall f (or_introl eq_refl)) as [d ->].
    apply IH. intros g Hg. apply Hall. now right.
Qed.
End ParallelFacts.

Section ParallelOn.
Context {Data : Type}.
Variable call : HookFunction -> Data -> behaviour.
Variable data : Data.

Lemma run_parallel_no_throw l :
  (forall f, In f l -> ~ throws_sync (call f data)) ->
  Parallel.run_parallel call l data =
  (map (Invoked 0) l ++ flat_map (settlement_of call data 0) l,
   await_all 0 (map (promise_of call data 0) l)).
Proof.
  intros Hno. unfold Parallel.run_parallel.
  now rewrite (map_start_no_throw call data 0 l Hno).
Qed.

Lemma run_parallel_throw pre f post e :
  (forall g, In g pre -> ~ throws_sync (call g data)) ->
  call f data = Throws e ->
  Parallel.run_parallel call (pre ++ f :: post) data =
  (map (Invoked 0) (pre ++ [f]) ++ flat_map (settlement_of call data 0) pre,
   Raise 0 e).
Proof.
  intros Hno Hf. unfold Parallel.run_parallel.
  now rewrite (map_start_throw call data 0 pre f post e Hno Hf).
Qed.

Lemma invoked_parallel_events l pre :
  invoked (map (Invoked 0) l ++ flat_map (settlement_of call data 0) pre) = l.
Proof.
  now rewrite invoked_app, invoked_map_Invoked, invoked_settlements,
    app_nil_r.
Qed.

(** A callback that throws when called cuts the [map] short: the
    callbacks after it are not called at all, with or without the
    [parallel] flag. *)
Lemma parallel_sync_throw_skips_rest name hooks pre f post e :
  Parallel.get_list name hooks = pre ++ f :: post ->
  (forall g, In g pre -> ~ throws_sync (call g data)) ->
  call f data = Throws e ->
  invoked (events (Parallel.on call name data true hooks)) = pre ++ [f].
Proof.
  intros Hl Hpre Hf.
  rewrite parallel_on_found by (rewrite Hl; now destruct pre).
  rewrite Hl. cbv beta iota zeta delta [result events].
  rewrite (run_parallel_throw pre f post e Hpre Hf). simpl fst.
  apply invoked_parallel_events.
Qed.

Lemma await_all_rejected name l t err :
  catch_rethrow name (await_all 0 (map (promise_of call data 0) l))
  = Rejected t err ->
  exists e,
    first_rejection (map (promise_of call data 0) l) = Some (t, e) /\
    wraps name e err.
Proof.
  unfold await_all.
  destruct (first_rejection _) as [[t' e']|] eqn:Hr.
  - intros H. destruct (catch_rethrow_wraps name t' e') as [err' [H1 H2]].
    rewrite H1 in H. injection H as <- <-. eauto.
  - destruct (all_fulfilled _ _); discriminate.
Qed.



End ParallelOn.


(* ================================================================== *)
(** * Error wrapping, registry by registry *)

Section Wrapping.
Context {Data : Type}.
Variable call : HookFunction -> Data -> behaviour.
Variable data : Data.





End Wrapping.




(* ================================================================== *)
(** * The list registries keep no empty list *)

Section ListRegistryFacts.
Context {V : Type}.
Implicit Types (hooks : JSMap.t (list V)) (name : string).

Lemma stored_nonempty_has name hooks :
  stored name hooks <> [] -> JSMap.has name hooks = true.
Proof.
  unfold stored, JSMap.has. destruct (JSMap.get name hooks); congruence.
Qed.

Lemma inv_has_stored name hooks :
  registry_inv hooks ->
  (JSMap.has name hooks = true <-> stored name hooks <> []).
Proof.
  intros [_ Hne]. split; [|apply stored_nonempty_has].
  unfold stored, JSMap.has. destruct (JSMap.get name hooks) eqn:E.
  - intros _. eapply Hne; eauto.
  - discriminate.
Qed.

Lemma inv_empty : registry_inv (@JSMap.empty (list V)).
Proof. split; [constructor | intros name l; discriminate]. Qed.

Lemma inv_set name (v : list V) hooks :
  registry_inv hooks -> v <> [] -> registry_inv (JSMap.set name v hooks).
Proof.
  intros [Hwf Hne] Hv. split; [now apply wf_set|].
  intros k l. destruct (String.eqb_spec name k) as [<-|Hk].
  - rewrite get_set_same. congruence.
  - rewrite get_set_other by assumption. apply Hne.
Qed.

Lemma inv_delete name hooks :
  registry_inv hooks -> registry_inv (JSMap.delete name hooks).
Proof.
  intros [Hwf Hne]. split; [now apply wf_delete|].
  intros k l. destruct (String.eqb_spec name k) as [<-|Hk].
  - rewrite get_delete_same by assumption. discriminate.
  - rewrite get_delete_other by assumption. apply Hne.
Qed.

Lemma inv_set_delete name (v : list V) hooks :
  registry_inv hooks ->
  registry_inv (JSMap.delete name (JSMap.set name v hooks)).
Proof.
  intros [Hwf Hne]. split; [now apply wf_delete, wf_set|].
  intros k l. destruct (String.eqb_spec name k) as [<-|Hk].
  - rewrite get_delete_same by now apply wf_set. discriminate.
  - rewrite get_delete_other, get_set_other by assumption. apply Hne.
Qed.

(** [register]: create the list if absent, then store the grown list. *)
Lemma inv_register name (v : list V) hooks :
  registry_inv hooks -> v <> [] ->
  registry_inv
    (JSMap.set name v
       (if negb (JSMap.has name hooks) then JSMap.set name [] hooks
        else hooks)).
Proof.
  intros Hinv Hv. destruct (negb (JSMap.has name hooks)).
  - destruct Hinv as [Hwf Hne]. split; [now apply wf_set, wf_set|].
    intros k l. destruct (String.eqb_spec name k) as [<-|Hk].
    + rewrite get_set_same. congruence.
    + rewrite !get_set_other by assumption. apply Hne.
  - now apply inv_set.
Qed.

Lemma filter_length_lt (keep : V -> bool) l :
  List.length (filter keep l) <> List.length l <->
  List.length (filter keep l) < List.length l.
Proof. pose proof (filter_length_le keep l). lia. Qed.

Section RemoveMatching.
Variable keep : V -> bool.

Lemma inv_remove_matching name hooks :
  registry_inv hooks -> registry_inv (snd (remove_matching keep name hooks)).
Proof.
  intros Hinv. unfold remove_matching.
  destruct (negb (JSMap.has name hooks)); simpl; auto.
  destruct (List.length (filter keep (stored name hooks)) =? 0) eqn:E.
  - now apply inv_set_delete.
  - apply inv_set; auto. intros Hnil. rewrite Hnil in E. discriminate.
Qed.

Lemma remove_matching_stored name hooks :
  JSMap.wf hooks ->
  stored name (snd (remove_matching keep name hooks)) =
  filter keep (stored name hooks).
Proof.
  intros Hwf. unfold remove_matching.
  destruct (JSMap.has name hooks) eqn:Hh; simpl.
  - destruct (List.length (filter keep (stored name hooks)) =? 0) eqn:E.
    + unfold stored at 1.
      rewrite get_delete_same by now apply wf_set.
      apply Nat.eqb_eq in E.
      now destruct (filter keep (stored name hooks)).
    + unfold stored at 1. now rewrite get_set_same.
  - apply has_false_get in Hh. unfold stored. now rewrite Hh.
Qed.

Lemma remove_matching_emptied name hooks :
  JSMap.wf hooks ->
  filter keep (stored name hooks) = [] ->
  JSMap.get name (snd (remove_matching keep name hooks)) = None.
Proof.
  intros Hwf Hnil. unfold remove_matching.
  destruct (JSMap.has name hooks) eqn:Hh; simpl.
  - rewrite Hnil. simpl. apply get_delete_same. now apply wf_set.
  - now apply has_false_get.
Qed.

Lemma remove_matching_other name other hooks :
  name <> other ->
  JSMap.get other (snd (remove_matching keep name hooks)) =
  JSMap.get other hooks.
Proof.
  intros Hne. unfold remove_matching.
  destruct (negb (JSMap.has name hooks)); simpl; auto.
  destruct (List.length (filter keep (stored name hooks)) =? 0).
  - now rewrite get_delete_other, get_set_other.
  - now rewrite get_set_other.
Qed.

Lemma remove_matching_result name hooks :
  fst (remove_matching keep name hooks) = true <->
  List.length (filter keep (stored name hooks)) <
  List.length (stored name hooks).
Proof.
  unfold remove_matching.
  destruct (JSMap.has name hooks) eqn:Hh; simpl.
  - rewrite negb_true_iff, Nat.eqb_neq, <- filter_length_lt.
    split; intros H Heq; apply H; now symmetry.
  - apply has_false_get in Hh. unfold stored. rewrite Hh. simpl.
    split; [discriminate | lia].
Qed.
End RemoveMatching.

Lemma delete_result_and_state name hooks :
  JSMap.wf hooks ->
  JSMap.get name (JSMap.delete name hooks) = None /\
  ~ In name (JSMap.keys (JSMap.delete name hooks)) /\
  forall other, name <> other ->
    JSMap.get other (JSMap.delete name hooks) = JSMap.get other hooks.
Proof.
  intros Hwf. split; [now apply get_delete_same|]. split.
  - intros Hin. apply has_iff_in_keys in Hin.
    unfold JSMap.has in Hin. now rewrite get_delete_same in Hin.
  - intros other Hne. now apply get_delete_other.
Qed.

Lemma inv_keys_stored name hooks :
  registry_inv hooks ->
  (In name (JSMap.keys hooks) <-> stored name hooks <> []).
Proof.
  intros Hinv. rewrite <- has_iff_in_keys. now apply inv_has_stored.
Qed.
End ListRegistryFacts.

Lemma delete_absent {V : Type} k (m : JSMap.t V) :
  JSMap.has k m = false -> JSMap.delete k m = m.
Proof.
  unfold JSMap.has. induction m as [|[k' v'] m IH]; simpl; auto.
  destruct (String.eqb k' k); [discriminate|].
  intros H. now rewrite IH.
Qed.

Lemma sort_insert_not_nil {A : Type} (cmp : A -> A -> Z) x l :
  sort_insert cmp x l <> [].
Proof. destruct l; simpl; [|destruct (_ <=? _)%Z]; discriminate. Qed.

Lemma Array_sort_snoc_not_nil {A : Type} (cmp : A -> A -> Z) l x :
  Array_sort cmp (l ++ [x]) <> [].
Proof.
  unfold Array_sort. rewrite fold_left_app. simpl.
  apply sort_insert_not_nil.
Qed.

(** ** Priority registry *)

Lemma priority_unregister_fn name fn0 hooks :
  Priority.unregister name (Some fn0) hooks =
  remove_matching (fun hook => negb (Nat.eqb (Priority.fn hook) fn0))
    name hooks.
Proof. reflexivity. Qed.

Lemma priority_unregister_all name hooks :
  Priority.unregister name None hooks =
  (JSMap.has name hooks, JSMap.delete name hooks).
Proof.
  unfold Priority.unregister.
  destruct (JSMap.has name hooks) eqn:Hh; simpl; auto.
  now rewrite delete_absent.
Qed.

Lemma priority_apply_inv hooks o :
  registry_inv hooks -> registry_inv (priority_apply hooks o).
Proof.
  intros Hinv. destruct o as [name fn p|name [fn0|]|name]; simpl; auto.
  - unfold Priority.register. apply inv_register; auto.
    apply Array_sort_snoc_not_nil.
  - rewrite priority_unregister_fn. now apply inv_remove_matching.
  - rewrite priority_unregister_all. simpl. now apply inv_delete.
Qed.

Lemma priority_run_inv ops : registry_inv (priority_run ops).
Proof.
  unfold priority_run.
  induction ops as [|o ops IH] using rev_ind.
  - apply inv_empty.
  - rewrite fold_left_app. simpl. now apply priority_apply_inv.
Qed.

Lemma priority_has_stored name hooks :
  Priority.has name hooks = true <-> Priority.get_list name hooks <> [].
Proof.
  unfold Priority.has. rewrite andb_true_iff, Nat.ltb_lt. split.
  - intros [_ H] Hnil. rewrite Hnil in H. simpl in H. lia.
  - intros H. split.
    + now apply stored_nonempty_has.
    + destruct (Priority.get_list name hooks); [congruence | simpl; lia].
Qed.

(** ** Parallel registry *)

Lemma parallel_unregister_fn name fn0 hooks :
  Parallel.unregister name (Some fn0) hooks =
  remove_matching (fun hook => negb (Nat.eqb hook fn0)) name hooks.
Proof. reflexivity. Qed.

Lemma parallel_unregister_all name hooks :
  Parallel.unregister name None hooks =
  (JSMap.has name hooks, JSMap.delete name hooks).
Proof.
  unfold Parallel.unregister.
  destruct (JSMap.has name hooks) eqn:Hh; simpl; auto.
  now rewrite delete_absent.
Qed.

Lemma parallel_apply_inv hooks o :
  registry_inv hooks -> registry_inv (parallel_apply hooks o).
Proof.
  intros Hinv. destruct o as [name fn|name [fn0|]|name par]; simpl; auto.
  - unfold Parallel.register. apply inv_register; auto.
    now destruct (Parallel.get_list name _).
  - rewrite parallel_unregister_fn. now apply inv_remove_matching.
  - rewrite parallel_unregister_all. simpl. now apply inv_delete.
Qed.

Lemma parallel_run_inv ops : registry_inv (parallel_run ops).
Proof.
  unfold parallel_run.
  induction ops as [|o ops IH] using rev_ind.
  - apply inv_empty.
  - rewrite fold_left_app. simpl. now apply parallel_apply_inv.
Qed.

Lemma parallel_has_stored name hooks :
  Parallel.has name hooks = true <-> Parallel.get_list name hooks <> [].
Proof.
  unfold Parallel.has. rewrite andb_true_iff, Nat.ltb_lt. split.
  - intros [_ H] Hnil. rewrite Hnil in H. simpl in H. lia.
  - intros H. split.
    + now apply stored_nonempty_has.
    + destruct (Parallel.get_list name hooks); [congruence | simpl; lia].
Qed.

(** C9.  After any sequence of [register], [unregister] and [on] calls on
    a priority or a parallel registry, no name of the map has an empty
    list: [list()] is exactly the names, each once, that have at least one
    callback, [has(name)] is true exactly for those names, and it is false
    right after [unregister(name)] without a callback. *)
Theorem list_registries_keep_no_empty_list :
  forall (pops : list priority_op) (lops : list parallel_op) (name : string),
    (lists_nonempty (priority_run pops) /\
     NoDup (Priority.list (priority_run pops)) /\
     (In name (Priority.list (priority_run pops)) <->
      Priority.get_list name (priority_run pops) <> []) /\
     (Priority.has name (priority_run pops) = true <->
      Priority.get_list name (priority_run pops) <> []) /\
     Priority.has name
       (snd (Priority.unregister name None (priority_run pops))) = false) /\
    (lists_nonempty (parallel_run lops) /\
     NoDup (Parallel.list (parallel_run lops)) /\
     (In name (Parallel.list (parallel_run lops)) <->
      Parallel.get_list name (parallel_run lops) <> []) /\
     (Parallel.has name (parallel_run lops) = true <->
      Parallel.get_list name (parallel_run lops) <> []) /\
     Parallel.has name
       (snd (Parallel.unregister name None (parallel_run lops))) = false).
Proof.
  intros pops lops name. split.
  - pose proof (priority_run_inv pops) as Hinv.
    destruct Hinv as [Hwf Hne].
    split; [exact Hne|]. split; [exact Hwf|].
    split; [apply (inv_keys_stored name _ (conj Hwf Hne))|].
    split; [apply priority_has_stored|].
    rewrite priority_unregister_all. simpl.
    unfold Priority.has, JSMap.has.
    now rewrite get_delete_same.
  - pose proof (parallel_run_inv lops) as Hinv.
    destruct Hinv as [Hwf Hne].
    split; [exact Hne|]. split; [exact Hwf|].
    split; [apply (inv_keys_stored name _ (conj Hwf Hne))|].
    split; [apply parallel_has_stored|].
    rewrite parallel_unregister_all. simpl.
    unfold Parallel.has, JSMap.has.
    now rewrite get_delete_same.
Qed.

Lemma parallel_on_events {Data : Type}
    (call : HookFunction -> Data -> behaviour) name data hooks :
  events (Parallel.on call name data false hooks) =
  fst (for_await call 0 (Parallel.get_list name hooks) data).
Proof.
  destruct (Parallel.get_list name hooks) as [|x l] eqn:Hl.
  - now rewrite (parallel_on_not_found call name data false hooks Hl).
  - rewrite parallel_on_found by congruence. now rewrite Hl.
Qed.

(** C6.  On a priority or a parallel registry, [unregister(name)] without
    a callback deletes the whole list of [name] and returns whether there
    was one; [unregister(name, fn)] removes exactly the entries whose
    callback is [fn], keeps the others in order and callable by [on],
    deletes [name] from the map when nothing is left, and returns true
    exactly when the list got shorter.  Other names are not touched. *)
Theorem unregister_removes_exactly :
  forall (Data : Type) (call : HookFunction -> Data -> behaviour)
         (data : Data) (pops : list priority_op) (lops : list parallel_op)
         (name : string) (fn0 : HookFunction),
    (let hooks := priority_run pops in
     let all := Priority.unregister name None hooks in
     let one := Priority.unregister name (Some fn0) hooks in
     let kept :=
       filter (fun hook => negb (Nat.eqb (Priority.fn hook) fn0))
         (Priority.get_list name hooks) in
     (fst all = true <-> In name (Priority.list hooks)) /\
     JSMap.get name (snd all) = None /\
     ~ In name (Priority.list (snd all)) /\
     (forall other, name <> other ->
        JSMap.get other (snd all) = JSMap.get other hooks) /\
     Priority.get_list name (snd one) = kept /\
     (forall e, In e kept <->
        In e (Priority.get_list name hooks) /\ Priority.fn e <> fn0) /\
     events (Priority.on call name data (snd one)) =
       fst (for_await call 0 (map Priority.fn kept) data) /\
     (kept = [] ->
        JSMap.get name (snd one) = None /\
        ~ In name (Priority.list (snd one))) /\
     (fst one = true <->
        List.length kept < List.length (Priority.get_list name hooks)) /\
     (forall other, name <> other ->
        JSMap.get other (snd one) = JSMap.get other hooks)) /\
    (let hooks := parallel_run lops in
     let all := Parallel.unregister name None hooks in
     let one := Parallel.unregister name (Some fn0) hooks in
     let kept :=
       filter (fun hook => negb (Nat.eqb hook fn0))
         (Parallel.get_list name hooks) in
     (fst all = true <-> In name (Parallel.list hooks)) /\
     JSMap.get name (snd all) = None /\
     ~ In name (Parallel.list (snd all)) /\
     (forall other, name <> other ->
        JSMap.get other (snd all) = JSMap.get other hooks) /\
     Parallel.get_list name (snd one) = kept /\
     (forall f, In f kept <->
        In f (Parallel.get_list name hooks) /\ f <> fn0) /\
     events (Parallel.on call name data false (snd one)) =
       fst (for_await call 0 kept data) /\
     (kept = [] ->
        JSMap.get name (snd one) = None /\
        ~ In name (Parallel.list (snd one))) /\
     (fst one = true <->
        List.length kept < List.length (Parallel.get_list name hooks)) /\
     (forall other, name <> other ->
        JSMap.get other (snd one) = JSMap.get other hooks)).
Proof.
  intros Data call data pops lops name fn0. split.
  - intros hooks all one kept.
    destruct (priority_run_inv pops) as [Hwf Hne]. fold hooks in Hwf, Hne.
    destruct (delete_result_and_state name hooks Hwf) as (Hd1 & Hd2 & Hd3).
    assert (Hstored : Priority.get_list name (snd one) = kept)
      by (apply (remove_matching_stored _ name hooks Hwf)).
    subst all. rewrite priority_unregister_all. simpl fst. simpl snd.
    split; [apply has_iff_in_keys|].
    split; [exact Hd1|]. split; [exact Hd2|]. split; [exact Hd3|].
    split; [exact Hstored|].
    split.
    { intros e. unfold kept. rewrite filter_In, negb_true_iff, Nat.eqb_neq.
      tauto. }
    split; [rewrite priority_on_events; now rewrite Hstored|].
    split.
    { intros Hnil.
      assert (Hg : JSMap.get name (snd one) = None)
        by (apply (remove_matching_emptied _ name hooks Hwf Hnil)).
      split; [exact Hg|].
      intros Hin. apply has_iff_in_keys in Hin.
      unfold JSMap.has in Hin. now rewrite Hg in Hin. }
    split; [apply remove_matching_result|].
    intros other Hother. now apply remove_matching_other.
  - intros hooks all one kept.
    destruct (parallel_run_inv lops) as [Hwf Hne]. fold hooks in Hwf, Hne.
    destruct (delete_result_and_state name hooks Hwf) as (Hd1 & Hd2 & Hd3).
    assert (Hstored : Parallel.get_list name (snd one) = kept)
      by (apply (remove_matching_stored _ name hooks Hwf)).
    subst all. rewrite parallel_unregister_all. simpl fst. simpl snd.
    split; [apply has_iff_in_keys|].
    split; [exact Hd1|]. split; [exact Hd2|]. split; [exact Hd3|].
    split; [exact Hstored|].
    split.
    { intros f. unfold kept. rewrite filter_In, negb_true_iff, Nat.eqb_neq.
      tauto. }
    split; [rewrite parallel_on_events; now rewrite Hstored|].
    split.
    { intros Hnil.
      assert (Hg : JSMap.get name (snd one) = None)
        by (apply (remove_matching_emptied _ name hooks Hwf Hnil)).
      split; [exact Hg|].
      intros Hin. apply has_iff_in_keys in Hin.
      unfold JSMap.has in Hin. now rewrite Hg in Hin. }
    split; [apply remove_matching_result|].
    intros other Hother. now apply remove_matching_other.
Qed.

Lemma unregister_removes_exactly_witness :
  map Priority.fn
    (Priority.get_list "init"
       (snd (Priority.unregister "init" (Some 2) init_5_20_10))) = [3; 1] /\
  invoked
    (events
       (Priority.on call_ok "init" tt
          (snd (Priority.unregister "init" (Some 2) init_5_20_10)))) = [3; 1]
  /\
  fst (Priority.unregister "init" (Some 2) init_5_20_10) = true.
Proof.
  destruct (unregister_removes_exactly unit call_ok tt
              [PRegister "init" 1 (Some 5%Z); PRegister "init" 2 (Some 20%Z);
               PRegister "init" 3 (Some 10%Z)] [] "init" 2)
    as [(_ & _ & _ & _ & Hkept & _ & Hev & _ & Hres & _) _].
  split; [|split].
  - exact (f_equal (map Priority.fn) Hkept).
  - exact (f_equal invoked Hev).
  - apply Hres. simpl. lia.
Defined.

(* ================================================================== *)
(** * Scoped registry: translation of names *)

Lemma scoped_name_starts prefix name :
  startsWith (prefix ++ ":")%string (Scoped.scoped_name prefix name) = true.
Proof.
  unfold startsWith, Scoped.scoped_name.
  rewrite <- append_assoc_s. apply prefix_append.
Qed.

Lemma scoped_name_stripped prefix name :
  substring_from (String.length prefix + 1) (Scoped.scoped_name prefix name)
  = name.
Proof.
  unfold Scoped.scoped_name. rewrite <- append_assoc_s.
  replace (String.length prefix + 1) with (String.length (prefix ++ ":")%string).
  - apply substring_from_append.
  - now rewrite length_append.
Qed.

Lemma append_inj_l (a b c : string) :
  (a ++ b)%string = (a ++ c)%string -> b = c.
Proof.
  induction a as [|ch a IH]; simpl; auto.
  intros H. injection H as H. auto.
Qed.

Lemma scoped_name_inj prefix n n' :
  Scoped.scoped_name prefix n = Scoped.scoped_name prefix n' -> n = n'.
Proof.
  unfold Scoped.scoped_name. intros H.
  apply append_inj_l in H. now apply append_inj_l in H.
Qed.

Lemma scoped_apply_prefix s o :
  Scoped.prefix (scoped_apply s o) = Scoped.prefix s.
Proof.
  destruct o as [name fn|name|name]; simpl; auto.
  unfold Scoped.register. now destruct (Basic.register _ _ _).
Qed.

Lemma scoped_apply_all_scoped s o :
  all_scoped s -> all_scoped (scoped_apply s o).
Proof.
  unfold all_scoped. intros H.
  destruct o as [name fn|name|name]; simpl; auto.
  - unfold Scoped.register, Basic.register.
    destruct (JSMap.has _ _) eqn:Hh; simpl; auto.
    rewrite keys_set, Hh. apply Forall_app. split; auto.
    constructor; [eauto | constructor].
  - unfold Scoped.unregister, Basic.unregister. simpl.
    rewrite Forall_forall in *. intros k Hk.
    apply in_keys_delete in Hk. auto.
Qed.

Lemma scoped_run_facts p ops :
  Scoped.prefix (scoped_run p ops) = p /\ all_scoped (scoped_run p ops).
Proof.
  unfold scoped_run. induction ops as [|o ops IH] using rev_ind.
  - split; [reflexivity | constructor].
  - rewrite fold_left_app. simpl. destruct IH as [IH1 IH2]. split.
    + now rewrite scoped_apply_prefix.
    + now apply scoped_apply_all_scoped.
Qed.

Lemma scoped_list_strips s :
  all_scoped s ->
  map (Scoped.scoped_name (Scoped.prefix s)) (Scoped.list s) =
  Basic.list (Scoped.manager s).
Proof.
  unfold all_scoped, Scoped.list, Basic.list.
  generalize (JSMap.keys (Scoped.manager s)) as ks.
  induction ks as [|k ks IH]; intros H; simpl; auto.
  inversion H as [|? ? [n ->] Hks]; subst.
  rewrite scoped_name_starts. simpl.
  rewrite scoped_name_stripped. f_equal. now apply IH.
Qed.

(** C7.  A scoped registry with prefix [p] hands every [register],
    [unregister], [has] and [on] on a name [n] to the inner basic registry
    under the name [p:n]; [list()] gives back the registered names without
    the prefix.  With prefix ["user"], after [register("login", fn)],
    [list()] is [["login"]] while the inner registry holds ["user:login"],
    and [on("login")] on the inner registry rejects with
    [HookNotFoundError]. *)
Theorem scoped_delegates_and_strips :
  forall (Data : Type) (call : HookFunction -> Data -> behaviour)
         (data : Data) (p : string) (ops : list basic_op)
         (n : string) (fn : HookFunction),
    let s := scoped_run p ops in
    let inner := Scoped.manager s in
    let translated := (p ++ ":" ++ n)%string in
    Scoped.prefix s = p /\
    Scoped.register n fn s =
      (fst (Basic.register translated fn inner),
       Scoped.mk_scoped p (snd (Basic.register translated fn inner))) /\
    Scoped.unregister n s =
      (fst (Basic.unregister translated inner),
       Scoped.mk_scoped p (snd (Basic.unregister translated inner))) /\
    Scoped.has n s = Basic.has translated inner /\
    Scoped.on call n data s = Basic.on call translated data inner /\
    Basic.list inner = map (fun m => (p ++ ":" ++ m)%string) (Scoped.list s) /\
    (In n (Scoped.list s) <-> Scoped.has n s = true) /\
    (let user := snd (Scoped.register "login" fn
                        (Scoped.createScopedHookManager "user")) in
     Scoped.list user = ["login"] /\
     Basic.list (Scoped.manager user) = ["user:login"] /\
     Basic.on call "login" data (Scoped.manager user) =
       mk_run (Rejected 0 (new_HookNotFoundError "login")) []).
Proof.
  intros Data call data p ops n fn s inner translated.
  destruct (scoped_run_facts p ops) as [Hp Hall]. fold s in Hp, Hall.
  pose proof (scoped_list_strips s Hall) as Hlist. rewrite Hp in Hlist.
  split; [exact Hp|].
  split.
  { unfold Scoped.register. rewrite Hp.
    now destruct (Basic.register _ _ _). }
  split.
  { unfold Scoped.unregister. rewrite Hp. reflexivity. }
  split; [unfold Scoped.has; now rewrite Hp|].
  split; [unfold Scoped.on; now rewrite Hp|].
  split; [symmetry; exact Hlist|].
  split.
  { unfold Scoped.has, Basic.has. rewrite Hp, has_iff_in_keys.
    change (JSMap.keys (Scoped.manager s)) with (Basic.list (Scoped.manager s)).
    rewrite <- Hlist, in_map_iff. split.
    - intros Hn. now exists n.
    - intros (m & Hm & Hin). apply scoped_name_inj in Hm. now subst m. }
  repeat split.
Qed.

(* ================================================================== *)
(** * The error family *)

Lemma catch_rethrow_class name fl t err :
  catch_rethrow name fl = Rejected t err ->
  err_class err = HookError /\ err_name err = "HookError".
Proof.
  destruct fl as [t0|t0 [message|v]|]; simpl; intros H;
    try discriminate; injection H as _ <-; auto.
Qed.

Lemma not_found_kind name : on_error_kinds
  (mk_run (Rejected 0 (new_HookNotFoundError name)) []).
Proof.
  intros t e H. simpl in H. injection H as _ <-.
  split; [reflexivity|]. left. auto.
Qed.

Lemma executed_kind name fl evs :
  evs <> [] -> on_error_kinds (mk_run (catch_rethrow name fl) evs).
Proof.
  intros Hne t e H. simpl in H.
  destruct (catch_rethrow_class name fl t e H) as [Hc Hn].
  split.
  - unfold instanceof. now rewrite Hc.
  - right. auto.
Qed.

Section ErrorKinds.
Context {Data : Type}.
Variable call : HookFunction -> Data -> behaviour.
Variable data : Data.

Lemma await_call_events t hook : fst (await_call call t hook data) <> [].
Proof.
  unfold await_call.
  destruct (call hook data) as [e|d [|e]|]; discriminate.
Qed.

Lemma for_await_events t hook l :
  fst (for_await call t (hook :: l) data) <> [].
Proof.
  simpl. unfold await_call.
  destruct (call hook data) as [e|d [|e]|]; try discriminate.
  now destruct (for_await call (t + d) l data).
Qed.

Lemma run_parallel_events hook l :
  fst (Parallel.run_parallel call (hook :: l) data) <> [].
Proof.
  unfold Parallel.run_parallel. simpl.
  destruct (call hook data) as [e|d o|]; try discriminate;
    destruct (map_start call 0 l data) as [[inv stl] [ps|e]]; discriminate.
Qed.

Lemma basic_on_kinds name hooks :
  on_error_kinds (Basic.on call name data hooks).
Proof.
  destruct (JSMap.get name hooks) as [hook|] eqn:Hg.
  - rewrite (basic_on_registered call name data hooks hook Hg).
    apply executed_kind, await_call_events.
  - rewrite basic_on_unregistered by now apply has_false_get.
    apply not_found_kind.
Qed.

Lemma priority_on_kinds name hooks :
  on_error_kinds (Priority.on call name data hooks).
Proof.
  destruct (Priority.get_list name hooks) as [|x l] eqn:Hl.
  - rewrite (priority_on_not_found call name data hooks Hl).
    apply not_found_kind.
  - rewrite priority_on_found by congruence. rewrite Hl.
    apply executed_kind. simpl map. apply for_await_events.
Qed.

Lemma parallel_on_kinds name parallel hooks :
  on_error_kinds (Parallel.on call name data parallel hooks).
Proof.
  destruct (Parallel.get_list name hooks) as [|x l] eqn:Hl.
  - rewrite (parallel_on_not_found call name data parallel hooks Hl).
    apply not_found_kind.
  - rewrite parallel_on_found by congruence. rewrite Hl. cbv zeta.
    apply executed_kind. destruct parallel.
    + apply run_parallel_events.
    + apply for_await_events.
Qed.
End ErrorKinds.

(** C4 (amended).  Every error a registry operation raises is a
    [HookError]: [register] of the basic and scoped registries throws a
    [DuplicateHookError], [on] rejects with a [HookNotFoundError] when it
    calls no callback and with an error of class [HookError] itself when a
    callback fails.  [HookNotFoundError] and [DuplicateHookError] are
    proper subclasses of [HookError]; a failed execution has no class of
    its own and is told from the other two by being neither, or by its
    [name]. *)
Theorem errors_are_hook_errors :
  forall (Data : Type) (call : HookFunction -> Data -> behaviour)
         (data : Data) (name : string) (fn : HookFunction) (parallel : bool),
    (forall hooks, register_error_kind (fst (Basic.register name fn hooks))) /\
    (forall s, register_error_kind (fst (Scoped.register name fn s))) /\
    (forall hooks, on_error_kinds (Basic.on call name data hooks)) /\
    (forall s, on_error_kinds (Scoped.on call name data s)) /\
    (forall hooks, on_error_kinds (Priority.on call name data hooks)) /\
    (forall hooks, on_error_kinds (Parallel.on call name data parallel hooks))
    /\
    proper_subclass_of HookNotFoundError HookError = true /\
    proper_subclass_of DuplicateHookError HookError = true /\
    proper_subclass_of HookError HookError = false /\
    ErrorClass_eqb HookNotFoundError DuplicateHookError = false.
Proof.
  intros Data call data name fn parallel.
  assert (Hreg : forall n hooks,
             register_error_kind (fst (Basic.register n fn hooks))).
  { intros n hooks e. unfold Basic.register.
    destruct (JSMap.has n hooks); simpl; intros H; [|discriminate].
    injection H as <-. repeat split. }
  split; [apply Hreg|].
  split.
  { intros s. unfold Scoped.register.
    pose proof (Hreg (Scoped.scoped_name (Scoped.prefix s) name)
                  (Scoped.manager s)) as H.
    now destruct (Basic.register _ _ _). }
  split; [intros; apply basic_on_kinds|].
  split; [intros; apply basic_on_kinds|].
  split; [intros; apply priority_on_kinds|].
  split; [intros; apply parallel_on_kinds|].
  repeat split.
Qed.

(** C4 as stated fails: a failed execution is not raised as a
    specialization of [HookError].  The error [on] rejects with when the
    callback throws has the class [HookError] itself. *)
Lemma execution_error_is_base_class :
  result (Basic.on call_first_throws "test" tt basic_test_1) =
    Rejected 0
      (new_HookError ("Error in hook " ++ dq ++ "test" ++ dq ++ ": boom")) /\
  err_class
    (new_HookError ("Error in hook " ++ dq ++ "test" ++ dq ++ ": boom"))
  = HookError /\
  proper_subclass_of
    (err_class
       (new_HookError ("Error in hook " ++ dq ++ "test" ++ dq ++ ": boom")))
    HookError = false.
Proof. repeat split. Qed.

(* ================================================================== *)
(** * Further properties: the basic registry *)

Lemma keys_delete_absent {V : Type} k (m : JSMap.t V) :
  ~ In k (JSMap.keys m) ->
  filter (fun k' => negb (String.eqb k' k)) (JSMap.keys m) = JSMap.keys m.
Proof.
  induction m as [|[k0 v0] m IH]; simpl; auto.
  intros Hn. destruct (String.eqb_spec k0 k) as [->|Hk]; simpl.
  - exfalso. apply Hn. now left.
  - f_equal. apply IH. tauto.
Qed.

Lemma keys_delete_filter {V : Type} k (m : JSMap.t V) :
  JSMap.wf m ->
  JSMap.keys (JSMap.delete k m) =
  filter (fun k' => negb (String.eqb k' k)) (JSMap.keys m).
Proof.
  unfold JSMap.wf. induction m as [|[k0 v0] m IH]; simpl; auto.
  intros Hnd. inversion Hnd as [|? ? Hnotin Hnd']; subst.
  destruct (String.eqb_spec k0 k) as [->|Hk]; simpl.
  - symmetry. now apply keys_delete_absent.
  - f_equal. now apply IH.
Qed.

Lemma basic_apply_wf hooks o : JSMap.wf hooks -> JSMap.wf (basic_apply hooks o).
Proof.
  intros H. destruct o as [name fn|name|name]; simpl; auto.
  - unfold Basic.register. destruct (JSMap.has name hooks); simpl; auto.
    now apply wf_set.
  - now apply wf_delete.
Qed.

Lemma basic_run_wf ops : JSMap.wf (basic_run ops).
Proof.
  unfold basic_run. induction ops as [|o ops IH] using rev_ind.
  - constructor.
  - rewrite fold_left_app. simpl. now apply basic_apply_wf.
Qed.

(** X1.  Registering a name that is free returns normally, stores the
    callback under that name at the end of the listing, leaves every other
    name alone, and [on] then calls that callback, once. *)
Theorem basic_register_fresh :
  forall (Data : Type) (call : HookFunction -> Data -> behaviour)
         (data : Data) (hooks : Basic.HookMap) (name : string)
         (fn : HookFunction),
    Basic.has name hooks = false ->
    let after := snd (Basic.register name fn hooks) in
    fst (Basic.register name fn hooks) = Return tt /\
    JSMap.get name after = Some fn /\
    Basic.has name after = true /\
    Basic.list after = Basic.list hooks ++ [name] /\
    (forall other, name <> other ->
       JSMap.get other after = JSMap.get other hooks) /\
    invoked (events (Basic.on call name data after)) = [fn].
Proof.
  intros Data call data hooks name fn Hfree after.
  unfold Basic.has in Hfree. subst after. unfold Basic.register.
  rewrite Hfree. simpl fst. simpl snd.
  split; [reflexivity|].
  split; [apply get_set_same|].
  split; [apply has_set_same|].
  split.
  { unfold Basic.list. now rewrite keys_set, Hfree. }
  split; [intros other Hne; now apply get_set_other|].
  rewrite (basic_on_registered call name data _ fn (get_set_same name fn hooks)).
  apply await_call_invoked.
Qed.

Lemma basic_register_fresh_witness :
  Basic.list (snd (Basic.register "hook2" 2 basic_test_1)) = ["test"; "hook2"]
  /\
  invoked
    (events (Basic.on call_ok "hook2" tt
               (snd (Basic.register "hook2" 2 basic_test_1)))) = [2].
Proof.
  destruct (basic_register_fresh unit call_ok tt basic_test_1 "hook2" 2
              eq_refl) as (_ & _ & _ & Hl & _ & Hon).
  split; [exact Hl | exact Hon].
Defined.

(** X2.  On any basic registry reached by [register], [unregister] and
    [on] calls, [unregister(name)] returns whether the name was
    registered; afterwards [has(name)] is false, the listing is the old
    one without [name], in the same order, the other names keep their
    callbacks, [on(name)] rejects with [HookNotFoundError] without calling
    anything, and [name] can be registered again. *)
Theorem basic_unregister_round_trip :
  forall (Data : Type) (call : HookFunction -> Data -> behaviour)
         (data : Data) (ops : list basic_op) (name : string)
         (fn : HookFunction),
    let hooks := basic_run ops in
    let after := snd (Basic.unregister name hooks) in
    fst (Basic.unregister name hooks) = Basic.has name hooks /\
    Basic.has name after = false /\
    Basic.list after =
      filter (fun k => negb (String.eqb k name)) (Basic.list hooks) /\
    (forall other, name <> other ->
       JSMap.get other after = JSMap.get other hooks) /\
    Basic.on call name data after =
      mk_run (Rejected 0 (new_HookNotFoundError name)) [] /\
    fst (Basic.register name fn after) = Return tt /\
    JSMap.get name (snd (Basic.register name fn after)) = Some fn.
Proof.
  intros Data call data ops name fn hooks after.
  pose proof (basic_run_wf ops) as Hwf. fold hooks in Hwf.
  assert (Hgone : JSMap.has name after = false).
  { apply has_false_get. now apply get_delete_same. }
  split; [reflexivity|].
  split; [exact Hgone|].
  split; [now apply keys_delete_filter|].
  split; [intros other Hne; now apply get_delete_other|].
  split; [now apply basic_on_unregistered|].
  unfold Basic.register. rewrite Hgone. simpl.
  split; [reflexivity | apply get_set_same].
Qed.

Lemma basic_register_all_keys regs :
  forall hooks,
    NoDup (JSMap.keys hooks ++ map fst regs) ->
    JSMap.keys (basic_register_all regs hooks) =
      JSMap.keys hooks ++ map fst regs /\
    forall n f, In (n, f) regs ->
                JSMap.get n (basic_register_all regs hooks) = Some f.
Proof.
  induction regs as [|[n0 f0] regs IH]; intros hooks Hnd.
  - simpl. split; [now rewrite app_nil_r | intros n f []].
  - assert (Hfree : JSMap.has n0 hooks = false).
    { destruct (JSMap.has n0 hooks) eqn:Hh; auto.
      apply has_iff_in_keys in Hh. exfalso. simpl in Hnd.
      eapply NoDup_remove_2; eauto. apply in_or_app. now left. }
    change (basic_register_all ((n0, f0) :: regs) hooks)
      with (basic_register_all regs (snd (Basic.register n0 f0 hooks))).
    assert (Hreg : snd (Basic.register n0 f0 hooks) = JSMap.set n0 f0 hooks)
      by (unfold Basic.register; now rewrite Hfree).
    rewrite Hreg. simpl map. simpl in Hnd.
    assert (Hk : JSMap.keys (JSMap.set n0 f0 hooks) = JSMap.keys hooks ++ [n0])
      by now rewrite keys_set, Hfree.
    assert (Hnd' : NoDup (JSMap.keys (JSMap.set n0 f0 hooks) ++ map fst regs)).
    { rewrite Hk, <- app_assoc. exact Hnd. }
    destruct (IH _ Hnd') as [IHk IHg]. split.
    + rewrite IHk, Hk, <- app_assoc. reflexivity.
    + intros n f [Heq|Hin]; [|now apply IHg].
      injection Heq as <- <-.
      assert (Hnot : ~ In n0 (map fst regs)).
      { intros Hin. apply (NoDup_remove_2 _ _ _ Hnd).
        apply in_or_app. now right. }
      clear IH IHk IHg Hnd Hnd' Hk Hfree.
      assert (Hget : JSMap.get n0 (JSMap.set n0 f0 hooks) = Some f0)
        by apply get_set_same.
      revert Hget. generalize (JSMap.set n0 f0 hooks) as h.
      induction regs as [|[n1 f1] regs IHr]; intros h Hget; simpl; auto.
      apply IHr.
      * intros Hin. apply Hnot. now right.
      * unfold Basic.register.
        destruct (JSMap.has n1 h); simpl; auto.
        rewrite get_set_other; auto.
        intros ->. apply Hnot. now left.
Qed.

(** X3.  Registering distinct names on a fresh basic registry lists them
    in registration order, without repetition; [has] is true exactly for
    the listed names and each name holds its own callback. *)
Theorem basic_list_registration_order :
  forall (regs : list (string * HookFunction)),
    NoDup (map fst regs) ->
    let hooks := basic_register_all regs Basic.createHookManager in
    Basic.list hooks = map fst regs /\
    NoDup (Basic.list hooks) /\
    (forall name, Basic.has name hooks = true <-> In name (Basic.list hooks))
    /\
    (forall n f, In (n, f) regs -> JSMap.get n hooks = Some f).
Proof.
  intros regs Hnd hooks.
  destruct (basic_register_all_keys regs Basic.createHookManager Hnd)
    as [Hk Hg].
  fold hooks in Hk, Hg. simpl in Hk.
  split; [exact Hk|].
  split; [unfold Basic.list; now rewrite Hk|].
  split; [intros name; apply has_iff_in_keys | exact Hg].
Qed.

Lemma basic_list_registration_order_witness :
  Basic.list
    (basic_register_all [("hook1", 1); ("hook2", 2)] Basic.createHookManager)
  = ["hook1"; "hook2"].
Proof.
  apply (basic_list_registration_order [("hook1", 1); ("hook2", 2)]).
  repeat constructor; simpl; intuition discriminate.
Defined.

(* ================================================================== *)
(** * Further properties: [has] and [on] agree *)

Section HasOn.
Context {Data : Type}.
Variable call : HookFunction -> Data -> behaviour.
Variable data : Data.

Lemma for_await_invoked_head t hook l :
  exists rest, invoked (fst (for_await call t (hook :: l) data)) = hook :: rest.
Proof.
  simpl. unfold await_call.
  destruct (call hook data) as [e|d [|e]|]; simpl; eauto.
  destruct (for_await call (t + d) l data) as [evs fl]. simpl. eauto.
Qed.

Lemma run_parallel_invoked_head hook l :
  exists rest,
    invoked (fst (Parallel.run_parallel call (hook :: l) data)) = hook :: rest.
Proof.
  destruct (first_thrower call data (hook :: l))
    as [Hno|(pre & g & post & e & Hl & Hpre & Hg)].
  - rewrite (run_parallel_no_throw call data _ Hno). cbn [fst].
    rewrite invoked_parallel_events. eauto.
  - rewrite Hl, (run_parallel_throw call data pre g post e Hpre Hg).
    cbn [fst]. rewrite invoked_parallel_events.
    destruct pre as [|p pre]; simpl in Hl; injection Hl as <- _; simpl; eauto.
Qed.

Lemma basic_has_on name hooks :
  (Basic.has name hooks = false <->
   Basic.on call name data hooks =
     mk_run (Rejected 0 (new_HookNotFoundError name)) []) /\
  (Basic.has name hooks = true <->
   invoked (events (Basic.on call name data hooks)) <> []).
Proof.
  unfold Basic.has, JSMap.has.
  destruct (JSMap.get name hooks) as [hook|] eqn:Hg.
  - rewrite (basic_on_registered call name data hooks hook Hg). simpl.
    rewrite await_call_invoked. split; split; try discriminate; auto.
    intros H. injection H as _ H.
    now destruct (await_call_events call data 0 hook).
  - rewrite basic_on_unregistered by now apply has_false_get.
    simpl. split; split; auto; try discriminate; congruence.
Qed.

Lemma priority_has_on name hooks :
  (Priority.has name hooks = false <->
   Priority.on call name data hooks =
     mk_run (Rejected 0 (new_HookNotFoundError name)) []) /\
  (Priority.has name hooks = true <->
   invoked (events (Priority.on call name data hooks)) <> []).
Proof.
  rewrite <- not_true_iff_false, priority_has_stored.
  destruct (Priority.get_list name hooks) as [|x l] eqn:Hl.
  - rewrite (priority_on_not_found call name data hooks Hl). simpl.
    split; split; intros; try reflexivity; congruence.
  - rewrite priority_on_found by congruence. rewrite Hl.
    cbv beta iota zeta delta [events].
    destruct (for_await_invoked_head 0 (Priority.fn x) (map Priority.fn l))
      as [rest Hrest].
    change (map Priority.fn (x :: l))
      with (Priority.fn x :: map Priority.fn l).
    assert (Hev : fst (for_await call 0
                         (Priority.fn x :: map Priority.fn l) data) <> [])
      by (intros E; rewrite E in Hrest; discriminate).
    rewrite Hrest. split; split; intros H; try discriminate.
    + exfalso. apply H. discriminate.
    + injection H as _ H. exfalso. exact (Hev H).
Qed.

Lemma parallel_has_on name parallel hooks :
  (Parallel.has name hooks = false <->
   Parallel.on call name data parallel hooks =
     mk_run (Rejected 0 (new_HookNotFoundError name)) []) /\
  (Parallel.has name hooks = true <->
   invoked (events (Parallel.on call name data parallel hooks)) <> []).
Proof.
  rewrite <- not_true_iff_false, parallel_has_stored.
  destruct (Parallel.get_list name hooks) as [|x l] eqn:Hl.
  - rewrite (parallel_on_not_found call name data parallel hooks Hl). simpl.
    split; split; intros; try reflexivity; congruence.
  - rewrite parallel_on_found by congruence. rewrite Hl.
    cbv beta iota zeta delta [events].
    assert (Hhead : exists rest,
      invoked (fst (if parallel
                    then Parallel.run_parallel call (x :: l) data
                    else for_await call 0 (x :: l) data)) = x :: rest).
    { destruct parallel;
        [apply run_parallel_invoked_head | apply for_await_invoked_head]. }
    destruct Hhead as [rest Hrest].
    assert (Hev : fst (if parallel
                       then Parallel.run_parallel call (x :: l) data
                       else for_await call 0 (x :: l) data) <> [])
      by (intros E; rewrite E in Hrest; discriminate).
    rewrite Hrest. split; split; intros H; try discriminate.
    + exfalso. apply H. discriminate.
    + injection H as _ H. exfalso. exact (Hev H).
Qed.
End HasOn.

(** X4.  In each of the four registries [has] and [on] agree: [on(name)]
    rejects with [HookNotFoundError] before calling anything exactly when
    [has(name)] is false, and it calls at least one callback exactly when
    [has(name)] is true. *)
Theorem has_and_on_agree :
  forall (Data : Type) (call : HookFunction -> Data -> behaviour)
         (data : Data) (name : string) (parallel : bool),
    (forall hooks,
        (Basic.has name hooks = false <->
         Basic.on call name data hooks =
           mk_run (Rejected 0 (new_HookNotFoundError name)) []) /\
        (Basic.has name hooks = true <->
         invoked (events (Basic.on call name data hooks)) <> [])) /\
    (forall s,
        (Scoped.has name s = false <->
         Scoped.on call name data s =
           mk_run (Rejected 0
                     (new_HookNotFoundError
                        (Scoped.scoped_name (Scoped.prefix s) name))) []) /\
        (Scoped.has name s = true <->
         invoked (events (Scoped.on call name data s)) <> [])) /\
    (forall hooks,
        (Priority.has name hooks = false <->
         Priority.on call name data hooks =
           mk_run (Rejected 0 (new_HookNotFoundError name)) []) /\
        (Priority.has name hooks = true <->
         invoked (events (Priority.on call name data hooks)) <> [])) /\
    (forall hooks,
        (Parallel.has name hooks = false <->
         Parallel.on call name data parallel hooks =
           mk_run (Rejected 0 (new_HookNotFoundError name)) []) /\
        (Parallel.has name hooks = true <->
         invoked (events (Parallel.on call name data parallel hooks)) <> [])).
Proof.
  intros Data call data name parallel.
  split; [intros; apply basic_has_on|].
  split; [intros s; apply basic_has_on|].
  split; [intros; apply priority_has_on | intros; apply parallel_has_on].
Qed.

(* ================================================================== *)
(** * Further properties: how long [on] takes, and callbacks that never
      settle *)

Section Timing.
Context {Data : Type}.
Variable call : HookFunction -> Data -> behaviour.
Variable data : Data.

Lemma for_await_time l :
  forall t,
    (forall f, In f l -> fulfils (call f data)) ->
    snd (for_await call t l data) = Continue (t + total_duration call data l).
Proof.
  unfold total_duration.
  induction l as [|f l IH]; intros t Hall; simpl.
  - now rewrite Nat.add_0_r.
  - destruct (Hall f (or_introl eq_refl)) as [d Hd].
    unfold await_call, duration at 1. rewrite Hd.
    specialize (IH (t + d) (fun g Hg => Hall g (or_intror Hg))).
    destruct (for_await call (t + d) l data) as [evs fl]. simpl in *.
    rewrite IH. f_equal. lia.
Qed.

Lemma no_failure_no_rejection l :
  (forall f, In f l -> ~ fails (call f data)) ->
  first_rejection (map (promise_of call data 0) l) = None.
Proof.
  intros Hok.
  destruct (first_rejection _) as [[t e]|] eqn:Hr; auto.
  destruct (first_rejection_some call data 0 l t e Hr)
    as [(f & d & Hf & Hc & _) _].
  exfalso. apply (Hok f Hf). exists e. right. eauto.
Qed.





Lemma for_await_hang pre f post :
  forall t,
    (forall g, In g pre -> fulfils (call g data)) ->
    call f data = Hangs ->
    invoked (fst (for_await call t (pre ++ f :: post) data)) = pre ++ [f] /\
    snd (for_await call t (pre ++ f :: post) data) = Stuck.
Proof.
  induction pre as [|g pre IH]; intros t Hpre Hf; simpl.
  - unfold await_call. rewrite Hf. auto.
  - destruct (Hpre g (or_introl eq_refl)) as [d Hd].
    unfold await_call. rewrite Hd.
    destruct (IH (t + d) (fun h Hh => Hpre h (or_intror Hh)) Hf) as [Hi Hs].
    destruct (for_await call (t + d) (pre ++ f :: post) data) as [evs fl].
    simpl in *. now rewrite Hi, Hs.
Qed.

Lemma all_fulfilled_hang l f :
  In f l -> call f data = Hangs ->
  forall t0, all_fulfilled t0 (map (promise_of call data 0) l) = None.
Proof.
  induction l as [|g l IH]; intros Hin Hf t0; [destruct Hin|].
  cbn [map]. rewrite all_fulfilled_cons, promise_of_eq.
  destruct Hin as [->|Hin].
  - now rewrite Hf.
  - destruct (call g data) as [e|d [|e]|]; auto.
Qed.
End Timing.

(** X5.  When every callback is fulfilled, the sequential [on] of the
    priority and of the parallel registry calls all of them and resolves
    after the sum of their durations. *)
Theorem sequential_time_is_sum :
  forall (Data : Type) (call : HookFunction -> Data -> behaviour)
         (data : Data) (name : string),
    (forall hooks : Priority.Hooks,
        let l := map Priority.fn (Priority.get_list name hooks) in
        l <> [] ->
        (forall f, In f l -> fulfils (call f data)) ->
        result (Priority.on call name data hooks)
        = Resolved (total_duration call data l) /\
        invoked (events (Priority.on call name data hooks)) = l) /\
    (forall hooks : Parallel.Hooks,
        let l := Parallel.get_list name hooks in
        l <> [] ->
        (forall f, In f l -> fulfils (call f data)) ->
        result (Parallel.on call name data false hooks)
        = Resolved (total_duration call data l) /\
        invoked (events (Parallel.on call name data false hooks)) = l).
Proof.
  intros Data call data name. split; intros hooks l Hne Hall.
  - assert (Hne' : Priority.get_list name hooks <> []).
    { intros E. apply Hne. unfold l. now rewrite E. }
    rewrite (priority_on_found call name data hooks Hne').
    cbv beta iota zeta delta [result events]. fold l.
    rewrite (for_await_time call data l 0 Hall). split; [reflexivity|].
    apply (for_await_all_fulfil call data l 0 Hall).
  - rewrite (parallel_on_found call name data false hooks Hne).
    cbv beta iota zeta delta [result events]. fold l.
    rewrite (for_await_time call data l 0 Hall). split; [reflexivity|].
    apply (for_await_all_fulfil call data l 0 Hall).
Qed.

Lemma sequential_time_is_sum_witness :
  result (Parallel.on call_three_fetches "fetchData" tt false
            parallel_fetch_1_2_3) = Resolved 33.
Proof.
  destruct (sequential_time_is_sum unit call_three_fetches tt "fetchData")
    as [_ H].
  apply (H parallel_fetch_1_2_3).
  - discriminate.
  - intros f [<-|[<-|[<-|[]]]]; eexists; reflexivity.
Defined.



(** X7.  A callback that never settles leaves [on] pending for ever.  In
    the sequential runs the callbacks before it have been called and
    fulfilled and those after it are never called; with the [parallel]
    flag all callbacks are called and, when none of them fails, [on]
    stays pending. *)
Theorem hanging_callback_hangs_on :
  forall (Data : Type) (call : HookFunction -> Data -> behaviour)
         (data : Data) (name : string) (f : HookFunction),
    call f data = Hangs ->
    (forall (hooks : Priority.Hooks) pre post,
        map Priority.fn (Priority.get_list name hooks) = pre ++ f :: post ->
        (forall g, In g pre -> fulfils (call g data)) ->
        result (Priority.on call name data hooks) = Pending /\
        invoked (events (Priority.on call name data hooks)) = pre ++ [f]) /\
    (forall (hooks : Parallel.Hooks) pre post,
        Parallel.get_list name hooks = pre ++ f :: post ->
        (forall g, In g pre -> fulfils (call g data)) ->
        result (Parallel.on call name data false hooks) = Pending /\
        invoked (events (Parallel.on call name data false hooks))
        = pre ++ [f]) /\
    (forall hooks : Parallel.Hooks,
        In f (Parallel.get_list name hooks) ->
        (forall g, In g (Parallel.get_list name hooks) ->
                   ~ fails (call g data)) ->
        result (Parallel.on call name data true hooks) = Pending /\
        invoked (events (Parallel.on call name data true hooks))
        = Parallel.get_list name hooks).
Proof.
  intros Data call data name f Hf. split; [|split].
  - intros hooks pre post Hl Hpre.
    assert (Hne : Priority.get_list name hooks <> []).
    { intros E. rewrite E in Hl. destruct pre; discriminate. }
    rewrite (priority_on_found call name data hooks Hne).
    cbv beta iota zeta delta [result events]. rewrite Hl.
    destruct (for_await_hang call data pre f post 0 Hpre Hf) as [Hi Hs].
    now rewrite Hs, Hi.
  - intros hooks pre post Hl Hpre.
    assert (Hne : Parallel.get_list name hooks <> []).
    { intros E. rewrite E in Hl. destruct pre; discriminate. }
    rewrite (parallel_on_found call name data false hooks Hne).
    cbv beta iota zeta delta [result events]. rewrite Hl.
    destruct (for_await_hang call data pre f post 0 Hpre Hf) as [Hi Hs].
    now rewrite Hs, Hi.
  - intros hooks Hin Hok.
    assert (Hne : Parallel.get_list name hooks <> []).
    { intros E. rewrite E in Hin. destruct Hin. }
    rewrite (parallel_on_found call name data true hooks Hne).
    cbv beta iota zeta delta [result events].
    assert (Hnt : forall g, In g (Parallel.get_list name hooks) ->
                            ~ throws_sync (call g data)).
    { intros g Hg [e He]. apply (Hok g Hg). exists e. now left. }
    rewrite (run_parallel_no_throw call data _ Hnt). cbn [fst snd].
    split; [|apply invoked_parallel_events].
    unfold await_all.
    rewrite (no_failure_no_rejection call data _ Hok).
    now rewrite (all_fulfilled_hang call data _ f Hin Hf 0).
Qed.

Lemma hanging_callback_hangs_on_witness :
  result (Parallel.on call_hang_then_reject "x" tt false parallel_x_1_2)
  = Pending /\
  invoked
    (events (Parallel.on call_hang_then_reject "x" tt false parallel_x_1_2))
  = [1].
Proof.
  destruct (hanging_callback_hangs_on unit call_hang_then_reject tt "x" 1
              eq_refl) as (_ & H & _).
  apply (H parallel_x_1_2 [] [2]).
  - reflexivity.
  - intros g [].
Defined.

(* ================================================================== *)
(** * Further properties: what [register] and [unregister] do to the
      stored lists *)

Lemma sorted_filter {A : Type} (R : A -> A -> Prop) (keep : A -> bool) l :
  StronglySorted R l -> StronglySorted R (filter keep l).
Proof.
  induction 1 as [|x l Hs IH Hx]; simpl; [constructor|].
  destruct (keep x); auto. constructor; auto.
  rewrite Forall_forall in *. intros y Hy. apply filter_In in Hy.
  apply Hx. tauto.
Qed.

Lemma sort_insert_perm {A : Type} (cmp : A -> A -> Z) x l :
  Permutation (sort_insert cmp x l) (x :: l).
Proof.
  induction l as [|y l IH]; simpl; auto.
  destruct (cmp y x <=? 0)%Z; auto.
  rewrite IH. apply perm_swap.
Qed.

Lemma fold_insert_perm {A : Type} (cmp : A -> A -> Z) l :
  forall acc,
    Permutation (fold_left (fun sorted x => sort_insert cmp x sorted) l acc)
                (acc ++ l).
Proof.
  induction l as [|x l IH]; intros acc; simpl.
  - now rewrite app_nil_r.
  - rewrite IH, sort_insert_perm. apply Permutation_middle.
Qed.

Lemma Array_sort_perm {A : Type} (cmp : A -> A -> Z) l :
  Permutation (Array_sort cmp l) l.
Proof. apply (fold_insert_perm cmp l []). Qed.

Lemma set_same {V : Type} k (v : V) (m : JSMap.t V) :
  JSMap.get k m = Some v -> JSMap.set k v m = m.
Proof.
  induction m as [|[k0 v0] m IH]; simpl; [discriminate|].
  destruct (String.eqb k0 k).
  - intros H. now injection H as ->.
  - intros H. now rewrite IH.
Qed.

Lemma filter_all {A : Type} (keep : A -> bool) l :
  (forall x, In x l -> keep x = true) -> filter keep l = l.
Proof.
  induction l as [|x l IH]; intros H; simpl; auto.
  rewrite (H x (or_introl eq_refl)). f_equal. apply IH.
  intros y Hy. apply H. now right.
Qed.

Lemma priority_register_other name other fn p hooks :
  name <> other ->
  JSMap.get other (Priority.register name fn p hooks) = JSMap.get other hooks.
Proof.
  intros Hne. unfold Priority.register.
  rewrite get_set_other by assumption.
  destruct (JSMap.has name hooks); simpl; auto.
  now rewrite get_set_other.
Qed.

Lemma priority_apply_sorted hooks o :
  JSMap.wf hooks -> lists_sorted hooks -> lists_sorted (priority_apply hooks o).
Proof.
  intros Hwf Hs. destruct o as [name fn p|name [fn0|]|name]; simpl; auto.
  - intros k l. destruct (String.eqb_spec name k) as [<-|Hk].
    + unfold Priority.register. rewrite get_set_same.
      intros H. injection H as <-. apply Array_sort_stably_sorted.
    + rewrite priority_register_other by assumption. apply Hs.
  - rewrite priority_unregister_fn. unfold Priority.Hooks. intros k l.
    destruct (String.eqb_spec name k) as [<-|Hk].
    + intros Hg.
      pose proof (remove_matching_stored
                    (fun hook => negb (Nat.eqb (Priority.fn hook) fn0))
                    name hooks Hwf) as Hst.
      assert (Hl : filter
                     (fun hook => negb (Nat.eqb (Priority.fn hook) fn0))
                     (stored name hooks) = l).
      { rewrite <- Hst. unfold stored at 1.
        match goal with
        | |- match ?g with _ => _ end = _ =>
            replace g with (Some l) by (symmetry; exact Hg)
        end.
        reflexivity. }
      rewrite <- Hl.
      apply sorted_filter. unfold stored.
      destruct (JSMap.get name hooks) as [l0|] eqn:E; [|constructor].
      eapply Hs; eauto.
    + rewrite remove_matching_other by assumption. apply Hs.
  - rewrite priority_unregister_all. simpl. intros k l.
    destruct (String.eqb_spec name k) as [<-|Hk].
    + rewrite get_delete_same by assumption. discriminate.
    + rewrite get_delete_other by assumption. apply Hs.
Qed.

Lemma priority_run_sorted ops : lists_sorted (priority_run ops).
Proof.
  induction ops as [|o ops IH] using rev_ind.
  - intros name l. discriminate.
  - unfold priority_run in *. rewrite fold_left_app. simpl.
    apply priority_apply_sorted; auto.
    apply (priority_run_inv ops).
Qed.

(** X9.  After any sequence of [register] and [unregister] calls on a
    priority registry (calls of [on] between them do not change the map),
    the list stored under every name is sorted by descending priority. *)
Theorem priority_lists_stay_sorted :
  forall (ops : list priority_op) (name : string),
    StronglySorted descending (Priority.get_list name (priority_run ops)) /\
    lists_sorted (priority_run ops).
Proof.
  intros ops name. split; [|apply priority_run_sorted].
  unfold Priority.get_list.
  destruct (JSMap.get name (priority_run ops)) as [l0|] eqn:E;
    [|constructor].
  exact (priority_run_sorted ops name l0 E).
Qed.

(** X10.  [register] on a priority registry, in any state, adds exactly
    the new entry to the list of the name (nothing is lost or repeated by
    the sort), makes [has(name)] true, keeps the place of the name in the
    listing or appends it when it is new, and does not touch other
    names. *)
Theorem priority_register_adds_one :
  forall (hooks : Priority.Hooks) (name : string) (fn : HookFunction)
         (p : option Z),
    let after := Priority.register name fn p hooks in
    let e := Priority.mk_entry (match p with Some q => q | None => 10%Z end)
               fn in
    Permutation (Priority.get_list name after)
                (e :: Priority.get_list name hooks) /\
    stably_sorted (Priority.get_list name after)
                  (Priority.get_list name hooks ++ [e]) /\
    Priority.has name after = true /\
    Priority.list after =
      (if JSMap.has name hooks then Priority.list hooks
       else Priority.list hooks ++ [name]) /\
    (forall other, name <> other ->
       JSMap.get other after = JSMap.get other hooks).
Proof.
  intros hooks name fn p after e.
  assert (Hl : Priority.get_list name after =
               Array_sort Priority.by_priority
                 (Priority.get_list name hooks ++ [e])).
  { unfold after. rewrite priority_get_list_register.
    now rewrite String.eqb_refl. }
  split; [|split; [|split; [|split]]].
  - rewrite Hl, Array_sort_perm. symmetry. apply Permutation_cons_append.
  - rewrite Hl. apply Array_sort_stably_sorted.
  - apply priority_has_stored. rewrite Hl. apply Array_sort_snoc_not_nil.
  - unfold after, Priority.list, Priority.register.
    destruct (JSMap.has name hooks) eqn:Hh; simpl.
    + now rewrite keys_set, Hh.
    + now rewrite keys_set, has_set_same, keys_set, Hh.
  - intros other Hne. now apply priority_register_other.
Qed.

Lemma parallel_get_list_register name' name fn hooks :
  Parallel.get_list name' (Parallel.register name fn hooks) =
  if String.eqb name name' then Parallel.get_list name hooks ++ [fn]
  else Parallel.get_list name' hooks.
Proof.
  unfold Parallel.register, Parallel.get_list.
  destruct (String.eqb_spec name name') as [<-|Hne].
  - rewrite get_set_same.
    destruct (JSMap.has name hooks) eqn:Hh; simpl; auto.
    rewrite get_set_same. apply has_false_get in Hh. now rewrite Hh.
  - rewrite get_set_other by assumption.
    destruct (JSMap.has name hooks); simpl; auto.
    now rewrite get_set_other.
Qed.

(** X11.  [register] on a parallel registry appends the callback to the
    list of the name, the same callback as often as it is registered;
    after any sequence of [register] calls on a fresh registry the list of
    a name is the callbacks registered under it, in registration order,
    and that is the order in which the sequential [on] calls them. *)
Theorem parallel_register_appends :
  forall (Data : Type) (call : HookFunction -> Data -> behaviour)
         (data : Data) (regs : list (string * HookFunction))
         (name : string),
    (forall hooks fn,
        Parallel.get_list name (Parallel.register name fn hooks) =
        Parallel.get_list name hooks ++ [fn]) /\
    (forall hooks other fn,
        other <> name ->
        Parallel.get_list name (Parallel.register other fn hooks) =
        Parallel.get_list name hooks) /\
    Parallel.get_list name
      (parallel_register_all regs Parallel.createParallelHookManager)
    = parallel_registered_for name regs /\
    exists rest,
      parallel_registered_for name regs =
      invoked
        (events
           (Parallel.on call name data false
              (parallel_register_all regs
                 Parallel.createParallelHookManager))) ++ rest.
Proof.
  intros Data call data regs name.
  assert (Hall : Parallel.get_list name
                   (parallel_register_all regs
                      Parallel.createParallelHookManager)
                 = parallel_registered_for name regs).
  { unfold parallel_register_all, parallel_registered_for.
    induction regs as [|[n f] regs IH] using rev_ind; [reflexivity|].
    rewrite fold_left_app, filter_app, map_app. simpl.
    rewrite parallel_get_list_register.
    destruct (String.eqb_spec n name) as [->|Hne]; simpl; rewrite IH;
      [reflexivity | now rewrite app_nil_r]. }
  split; [|split; [|split]].
  - intros hooks fn. rewrite parallel_get_list_register.
    now rewrite String.eqb_refl.
  - intros hooks other fn Hne. rewrite parallel_get_list_register.
    destruct (String.eqb_spec other name); [contradiction | reflexivity].
  - exact Hall.
  - rewrite parallel_on_events, Hall. apply for_await_prefix.
Qed.

Lemma remove_matching_nothing {V : Type} (keep : V -> bool) name
    (hooks : JSMap.t (list V)) :
  lists_nonempty hooks ->
  (forall x, In x (stored name hooks) -> keep x = true) ->
  remove_matching keep name hooks = (false, hooks).
Proof.
  intros Hne Hkeep. unfold remove_matching.
  destruct (JSMap.has name hooks) eqn:Hh; simpl; auto.
  rewrite (filter_all keep _ Hkeep), Nat.eqb_refl. simpl.
  unfold stored in *. unfold JSMap.has in Hh.
  destruct (JSMap.get name hooks) as [l|] eqn:Hg; [|discriminate].
  rewrite (set_same name l hooks Hg).
  destruct l as [|x l]; [now destruct (Hne name [] Hg) | reflexivity].
Qed.

(** X12.  An [unregister] that matches nothing returns false and leaves
    the registry as it was: on a priority or parallel registry when the
    given callback is not in the list of the name (also when the name has
    no list), on a basic registry when the name is not registered. *)
Theorem unregister_without_match_is_noop :
  forall (pops : list priority_op) (lops : list parallel_op)
         (name : string) (fn0 : HookFunction),
    ((forall e, In e (Priority.get_list name (priority_run pops)) ->
                Priority.fn e <> fn0) ->
     Priority.unregister name (Some fn0) (priority_run pops)
     = (false, priority_run pops)) /\
    (~ In fn0 (Parallel.get_list name (parallel_run lops)) ->
     Parallel.unregister name (Some fn0) (parallel_run lops)
     = (false, parallel_run lops)) /\
    (forall hooks : Basic.HookMap,
        Basic.has name hooks = false ->
        Basic.unregister name hooks = (false, hooks)).
Proof.
  intros pops lops name fn0. split; [|split].
  - intros Hno. rewrite priority_unregister_fn.
    apply remove_matching_nothing; [apply priority_run_inv|].
    intros e He. apply negb_true_iff, Nat.eqb_neq. now apply Hno.
  - intros Hno. rewrite parallel_unregister_fn.
    apply remove_matching_nothing; [apply parallel_run_inv|].
    intros f Hf. apply negb_true_iff, Nat.eqb_neq. intros ->. now apply Hno.
  - intros hooks Hh. unfold Basic.unregister.
    unfold Basic.has in Hh. now rewrite Hh, delete_absent.
Qed.

Lemma unregister_without_match_is_noop_witness :
  Priority.unregister "init" (Some 7) init_5_20_10 = (false, init_5_20_10).
Proof.
  destruct (unregister_without_match_is_noop
              [PRegister "init" 1 (Some 5%Z); PRegister "init" 2 (Some 20%Z);
               PRegister "init" 3 (Some 10%Z)] [] "init" 7) as [H _].
  apply H.
  intros e [<-|[<-|[<-|[]]]]; discriminate.
Defined.

(** X13.  Nothing of a name is left behind by [unregister(name)]: on a
    priority or parallel registry reached by any calls, registering under
    the name again gives a list with the new callback alone. *)
Theorem register_after_unregister_starts_afresh :
  forall (pops : list priority_op) (lops : list parallel_op)
         (name : string) (fn : HookFunction) (p : option Z),
    Priority.get_list name
      (Priority.register name fn p
         (snd (Priority.unregister name None (priority_run pops))))
    = [Priority.mk_entry (match p with Some q => q | None => 10%Z end) fn] /\
    Parallel.get_list name
      (Parallel.register name fn
         (snd (Parallel.unregister name None (parallel_run lops))))
    = [fn].
Proof.
  intros pops lops name fn p. split.
  - rewrite priority_unregister_all. cbn [snd].
    rewrite priority_get_list_register, String.eqb_refl.
    unfold Priority.get_list.
    rewrite get_delete_same by apply priority_run_inv. reflexivity.
  - rewrite parallel_unregister_all. cbn [snd].
    rewrite parallel_get_list_register, String.eqb_refl.
    unfold Parallel.get_list.
    rewrite get_delete_same by apply parallel_run_inv. reflexivity.
Qed.

(* ================================================================== *)
(** * Further properties: the scoped registry *)

Lemma basic_on_get_ext {Data : Type}
    (call : HookFunction -> Data -> behaviour) name data hooks hooks' :
  JSMap.get name hooks = JSMap.get name hooks' ->
  Basic.on call name data hooks = Basic.on call name data hooks'.
Proof. intros H. unfold Basic.on. now rewrite H. Qed.

Lemma basic_register_other name other fn hooks :
  name <> other ->
  JSMap.get other (snd (Basic.register name fn hooks)) = JSMap.get other hooks.
Proof.
  intros Hne. unfold Basic.register.
  destruct (JSMap.has name hooks); simpl; auto.
  now apply get_set_other.
Qed.

(** X14.  Different names of a scoped registry never meet in the inner
    registry: registering or unregistering [n] changes neither [has] nor
    [on] for another name [n']. *)
Theorem scoped_names_do_not_interfere :
  forall (Data : Type) (call : HookFunction -> Data -> behaviour)
         (data : Data) (s : Scoped.ScopedHooks) (n n' : string)
         (fn : HookFunction),
    n <> n' ->
    Scoped.has n' (snd (Scoped.register n fn s)) = Scoped.has n' s /\
    Scoped.on call n' data (snd (Scoped.register n fn s))
    = Scoped.on call n' data s /\
    Scoped.has n' (snd (Scoped.unregister n s)) = Scoped.has n' s /\
    Scoped.on call n' data (snd (Scoped.unregister n s))
    = Scoped.on call n' data s.
Proof.
  intros Data call data s n n' fn Hne.
  assert (Ht : Scoped.scoped_name (Scoped.prefix s) n <>
               Scoped.scoped_name (Scoped.prefix s) n').
  { intros H. apply Hne. eapply scoped_name_inj; eauto. }
  assert (Hreg : JSMap.get (Scoped.scoped_name (Scoped.prefix s) n')
                   (Scoped.manager (snd (Scoped.register n fn s)))
                 = JSMap.get (Scoped.scoped_name (Scoped.prefix s) n')
                     (Scoped.manager s)).
  { unfold Scoped.register.
    pose proof (basic_register_other _ _ fn (Scoped.manager s) Ht) as H.
    destruct (Basic.register _ fn (Scoped.manager s)). exact H. }
  assert (Hun : JSMap.get (Scoped.scoped_name (Scoped.prefix s) n')
                  (Scoped.manager (snd (Scoped.unregister n s)))
                = JSMap.get (Scoped.scoped_name (Scoped.prefix s) n')
                    (Scoped.manager s)).
  { unfold Scoped.unregister, Basic.unregister. simpl.
    now apply get_delete_other. }
  assert (Hp1 : Scoped.prefix (snd (Scoped.register n fn s)) = Scoped.prefix s).
  { unfold Scoped.register. now destruct (Basic.register _ _ _). }
  assert (Hp2 : Scoped.prefix (snd (Scoped.unregister n s)) = Scoped.prefix s)
    by reflexivity.
  unfold Scoped.has, Scoped.on, Basic.has, JSMap.has.
  rewrite Hp1, Hp2, Hreg, Hun.
  repeat split; now apply basic_on_get_ext.
Qed.

Lemma scoped_names_do_not_interfere_witness :
  Scoped.has "login" (snd (Scoped.register "logout" 2 scoped_user_login))
  = true /\
  Scoped.has "login" (snd (Scoped.unregister "logout" scoped_user_login))
  = true.
Proof.
  assert (Hne : "logout" <> "login") by discriminate.
  destruct (scoped_names_do_not_interfere unit call_ok tt scoped_user_login
              "logout" "login" 2 Hne) as (H1 & _ & H3 & _).
  split; [exact H1 | exact H3].
Defined.

(** X15.  Registering a name that is taken on a scoped registry throws a
    [DuplicateHookError] whose message names the translated hook
    [prefix:name], and the registry is left as it was. *)
Theorem scoped_register_duplicate :
  forall (s : Scoped.ScopedHooks) (n : string) (fn : HookFunction),
    Scoped.has n s = true ->
    Scoped.register n fn s =
      (Throw (new_DuplicateHookError
                (Scoped.scoped_name (Scoped.prefix s) n)), s) /\
    err_message
      (new_DuplicateHookError (Scoped.scoped_name (Scoped.prefix s) n))
    = ("Hook " ++ dq ++ Scoped.prefix s ++ ":" ++ n ++ dq
       ++ " is already registered")%string.
Proof.
  intros [p m] n fn Hhas. unfold Scoped.has, Basic.has in Hhas. simpl in *.
  split.
  - unfold Scoped.register, Basic.register. simpl. now rewrite Hhas.
  - unfold new_DuplicateHookError, Scoped.scoped_name. simpl.
    now rewrite !append_assoc_s.
Qed.

Lemma scoped_register_duplicate_witness :
  Scoped.register "login" 2 scoped_user_login =
    (Throw (new_DuplicateHookError "user:login"), scoped_user_login).
Proof.
  apply (scoped_register_duplicate scoped_user_login "login" 2 eq_refl).
Defined.

(* ================================================================== *)
(** * Further properties: the errors *)

Lemma append_same_length_inj (a : string) :
  forall b c d,
    String.length a = String.length b ->
    (a ++ c)%string = (b ++ d)%string -> a = b.
Proof.
  induction a as [|ch a IH]; intros [|ch' b] c d Hlen H;
    simpl in *; try discriminate; auto.
  injection H as -> H. f_equal. eapply IH; eauto.
Qed.

Lemma append_inj_r (a b c : string) :
  (a ++ c)%string = (b ++ c)%string -> a = b.
Proof.
  intros H. apply (append_same_length_inj a b c c); auto.
  apply (f_equal String.length) in H. rewrite !length_append in H. lia.
Qed.

(** X16.  The message of a [HookNotFoundError] or [DuplicateHookError]
    determines the hook name it was built for, and both errors are
    instances of [HookError] and of [Error] but not of each other. *)
Theorem error_messages_name_the_hook :
  forall n n' : string,
    (err_message (new_HookNotFoundError n)
     = err_message (new_HookNotFoundError n') -> n = n') /\
    (err_message (new_DuplicateHookError n)
     = err_message (new_DuplicateHookError n') -> n = n') /\
    instanceof (new_HookNotFoundError n) HookError = true /\
    instanceof (new_HookNotFoundError n) Error = true /\
    instanceof (new_HookNotFoundError n) DuplicateHookError = false /\
    instanceof (new_DuplicateHookError n) HookError = true /\
    instanceof (new_DuplicateHookError n) Error = true /\
    instanceof (new_DuplicateHookError n) HookNotFoundError = false.
Proof.
  intros n n'. split; [|split; [|repeat split]].
  - unfold new_HookNotFoundError. simpl. intros H.
    injection H as H. now apply append_inj_r in H.
  - unfold new_DuplicateHookError. simpl. intros H.
    injection H as H. now apply append_inj_r in H.
Qed.


(* ================================================================== *)
(** * Further properties: what a resolved [on] guarantees *)

Section Resolved.
Context {Data : Type}.
Variable call : HookFunction -> Data -> behaviour.
Variable data : Data.

Lemma for_await_continue l :
  forall t t',
    snd (for_await call t l data) = Continue t' ->
    invoked (fst (for_await call t l data)) = l /\
    (forall f, In f l -> fulfils (call f data)) /\
    t <= t' /\
    (forall t0 f o,
        In (Settled t0 f o) (fst (for_await call t l data)) ->
        t0 <= t' /\ o = Fulfil).
Proof.
  induction l as [|f l IH]; intros t t' H; simpl in *.
  - injection H as <-. repeat split; auto; intros; tauto.
  - unfold await_call in *.
    destruct (call f data) as [e|d [|e]|] eqn:Hf; simpl in *;
      try discriminate.
    specialize (IH (t + d) t').
    destruct (for_await call (t + d) l data) as [evs fl]. simpl in *.
    destruct (IH H) as (Hi & Hall & Hle & Hev).
    split; [now rewrite Hi|]. split; [|split; [lia|]].
    + intros g [<-|Hg]; [exists d; exact Hf | now apply Hall].
    + intros t0 g o [Heq|[Heq|Hin]];
        [discriminate| |exact (Hev t0 g o Hin)].
      injection Heq as <- _ <-. split; [lia | reflexivity].
Qed.

Lemma all_fulfilled_all l :
  forall t0 tm,
    all_fulfilled t0 (map (promise_of call data 0) l) = Some tm ->
    forall f, In f l -> fulfils (call f data).
Proof.
  induction l as [|g l IH]; intros t0 tm H f Hf; [destruct Hf|].
  cbn [map] in H. rewrite all_fulfilled_cons, promise_of_eq in H.
  destruct (call g data) as [e|d [|e]|] eqn:Hg; try discriminate.
  destruct Hf as [<-|Hf]; [now exists d | eapply IH; eauto].
Qed.

Lemma run_parallel_continue l t' :
  snd (Parallel.run_parallel call l data) = Continue t' ->
  invoked (fst (Parallel.run_parallel call l data)) = l /\
  (forall f, In f l -> fulfils (call f data)) /\
  (forall t0 f o,
      In (Settled t0 f o) (fst (Parallel.run_parallel call l data)) ->
      t0 <= t' /\ o = Fulfil).
Proof.
  destruct (first_thrower call data l)
    as [Hnt|(pre & g & post & e & -> & Hpre & Hg)].
  - rewrite (run_parallel_no_throw call data l Hnt). cbn [fst snd].
    unfold await_all.
    destruct (first_rejection _) as [[t1 e1]|] eqn:Hr; [discriminate|].
    destruct (all_fulfilled 0 _) as [tm|] eqn:Ha; [|discriminate].
    intros H. injection H as <-.
    pose proof (all_fulfilled_all l 0 tm Ha) as Hall.
    destruct (all_fulfilled_some call data 0 l 0 tm Ha) as [_ Hle].
    split; [apply invoked_parallel_events|]. split; [exact Hall|].
    intros t0 f o Hin. apply in_app_or in Hin. destruct Hin as [Hin|Hin].
    + apply in_map_iff in Hin. destruct Hin as (h & Hh & _). discriminate.
    + apply settlements_in in Hin.
      destruct Hin as (h & d & o' & Hh & Hc & Heq).
      injection Heq as -> _ ->. split; [apply (Hle h d o' Hh Hc)|].
      destruct (Hall h Hh) as [d' Hd']. congruence.
  - rewrite (run_parallel_throw call data pre g post e Hpre Hg).
    discriminate.
Qed.
End Resolved.

(** X17.  When [on] resolves, every callback of the name has been called,
    in list order, and has been fulfilled, none later than the moment [on]
    resolves: in the basic registry, in the priority registry and in both
    modes of the parallel registry. *)
Theorem resolved_on_means_all_done :
  forall (Data : Type) (call : HookFunction -> Data -> behaviour)
         (data : Data) (name : string) (parallel : bool) (t : nat),
    (forall hooks : Basic.HookMap,
        result (Basic.on call name data hooks) = Resolved t ->
        exists hook,
          JSMap.get name hooks = Some hook /\
          events (Basic.on call name data hooks)
          = [Invoked 0 hook; Settled t hook Fulfil]) /\
    (forall hooks : Priority.Hooks,
        result (Priority.on call name data hooks) = Resolved t ->
        invoked (events (Priority.on call name data hooks))
        = map Priority.fn (Priority.get_list name hooks) /\
        (forall f, In f (map Priority.fn (Priority.get_list name hooks)) ->
                   fulfils (call f data)) /\
        (forall t0 f o,
            In (Settled t0 f o) (events (Priority.on call name data hooks)) ->
            t0 <= t /\ o = Fulfil)) /\
    (forall hooks : Parallel.Hooks,
        result (Parallel.on call name data parallel hooks) = Resolved t ->
        invoked (events (Parallel.on call name data parallel hooks))
        = Parallel.get_list name hooks /\
        (forall f, In f (Parallel.get_list name hooks) ->
                   fulfils (call f data)) /\
        (forall t0 f o,
            In (Settled t0 f o)
               (events (Parallel.on call name data parallel hooks)) ->
            t0 <= t /\ o = Fulfil)).
Proof.
  intros Data call data name parallel t. split; [|split].
  - intros hooks. unfold Basic.on.
    destruct (JSMap.get name hooks) as [hook|]; [|discriminate].
    unfold await_call.
    destruct (call hook data) as [[m|v]|d [|[m|v]]|]; simpl;
      try discriminate.
    intros H. injection H as <-. eauto.
  - intros hooks.
    destruct (Priority.get_list name hooks) as [|x l] eqn:Hl.
    + rewrite (priority_on_not_found call name data hooks Hl). discriminate.
    + rewrite priority_on_found by congruence. rewrite Hl.
      cbv beta iota zeta delta [result events].
      destruct (snd (for_await call 0 (map Priority.fn (x :: l)) data))
        as [t'|t' [m|v]|] eqn:Hs; simpl; try discriminate.
      intros H. injection H as <-.
      destruct (for_await_continue call data _ 0 t' Hs) as (H1 & H2 & _ & H4).
      auto.
  - intros hooks.
    destruct (Parallel.get_list name hooks) as [|x l] eqn:Hl.
    + rewrite (parallel_on_not_found call name data parallel hooks Hl).
      discriminate.
    + rewrite parallel_on_found by congruence. rewrite Hl.
      cbv beta iota zeta delta [result events].
      destruct parallel.
      * destruct (snd (Parallel.run_parallel call (x :: l) data))
          as [t'|t' [m|v]|] eqn:Hs; simpl; try discriminate.
        intros H. injection H as <-.
        exact (run_parallel_continue call data _ t' Hs).
      * destruct (snd (for_await call 0 (x :: l) data))
          as [t'|t' [m|v]|] eqn:Hs; simpl; try discriminate.
        intros H. injection H as <-.
        destruct (for_await_continue call data _ 0 t' Hs)
          as (H1 & H2 & _ & H4).
        auto.
Qed.

Lemma resolved_on_means_all_done_witness :
  invoked
    (events (Parallel.on call_three_fetches "fetchData" tt true
               parallel_fetch_1_2_3)) = [1; 2; 3].
Proof.
  destruct (resolved_on_means_all_done unit call_three_fetches tt
              "fetchData" true 15) as (_ & _ & H).
  apply (H parallel_fetch_1_2_3). reflexivity.
Defined.

(* ================================================================== *)
(** * [Parallel.on] with the [parallel] flag, as a whole *)


